(** * WxAlert: a shallow embedding of [WxAlert.py]

  The development follows the source file top-down:

  - [Text]      Python [str] operations used by the program
                ([lower], [in], [strip], f-string rendering);
  - [Severity]  [determine_severity] (lines 34-41);
  - [ETree]     the part of [xml.etree.ElementTree] the program relies on
                ([Element], [iter], [find] over the four path shapes);
  - [Py]        a small state-and-exception monad for [try]/[except];
  - [Fetch]     [fetch_and_parse_warning] (lines 128-169);
  - [Loop]      [WeatherAlertApp.display_alert] (lines 48-69) and the body
                of [main_loop] (lines 171-197);
  - [Style]     [SEVERITY_LEVELS] (lines 28-32) and the colours of the window;
  - [Setup]     [STATE_MAP], [load_config], [save_config],
                [run_first_time_setup] and the start of the program
                (lines 14-25, 72-125, 200-214).

  Text is modelled as [string], a sequence of 8-bit characters: [lower]
  maps 'A'..'Z' to 'a'..'z' and [strip] removes the ASCII characters for
  which Python's [str.isspace] holds.  On ASCII text ([isascii]) these are
  [str.lower] and [str.strip]; a theorem whose conclusion depends on what
  they do to other characters is stated for ASCII text. *)

From Stdlib Require Import String Ascii List Bool Arith ZArith Lia.
Import ListNotations.
Local Open Scope string_scope.

(* ===================================================================== *)
(** ** Python string operations *)
(* ===================================================================== *)

Module Text.

(** [c.lower()] on one character. *)
Definition lower_ascii (c : ascii) : ascii :=
  let n := nat_of_ascii c in
  if ((65 <=? n) && (n <=? 90))%nat then ascii_of_nat (n + 32) else c.

(** [s.lower()]. *)
Fixpoint lower (s : string) : string :=
  match s with
  | EmptyString => EmptyString
  | String c s' => String (lower_ascii c) (lower s')
  end.

(** [hay.startswith(needle)]. *)
Fixpoint startswith (needle hay : string) : bool :=
  match needle, hay with
  | EmptyString, _ => true
  | String _ _, EmptyString => false
  | String a n', String b h' => Ascii.eqb a b && startswith n' h'
  end.

(** [needle in hay]. *)
Fixpoint str_in (needle hay : string) : bool :=
  startswith needle hay ||
  match hay with
  | EmptyString => false
  | String _ h' => str_in needle h'
  end.

(** [c.isspace()] for a character below 128: TAB, LF, VT, FF, CR, the
    four separators FS, GS, RS, US, and the space. *)
Definition isspace (c : ascii) : bool :=
  let n := nat_of_ascii c in
  (((9 <=? n) && (n <=? 13)) || ((28 <=? n) && (n <=? 32)))%nat.

Fixpoint lstrip (s : string) : string :=
  match s with
  | EmptyString => EmptyString
  | String c s' => if isspace c then lstrip s' else s
  end.

Fixpoint rstrip (s : string) : string :=
  match s with
  | EmptyString => EmptyString
  | String c s' =>
      match rstrip s' with
      | EmptyString => if isspace c then EmptyString else String c EmptyString
      | r => String c r
      end
  end.

(** [s.strip()]. *)
Definition strip (s : string) : string := rstrip (lstrip s).

(** [f"{x}"] for a value that is a [str] or [None]. *)
Definition fmt (x : option string) : string :=
  match x with
  | Some s => s
  | None => "None"
  end.

Definition LF : string := String (ascii_of_nat 10) EmptyString.

(** [s.isascii()]: every character is below 128. *)
Fixpoint isascii (s : string) : bool :=
  match s with
  | EmptyString => true
  | String c s' => (nat_of_ascii c <? 128)%nat && isascii s'
  end.

End Text.

(* ===================================================================== *)
(** ** Severity classification (lines 28-41) *)
(* ===================================================================== *)

Module Severity.
Import Text.

(** The keys of [SEVERITY_LEVELS]: "All Clear", "Minor", "Major",
    "Deadly", "Default". *)
Inductive tier : Type := AllClear | Minor | Major | Deadly | Default.

Definition tier_eqb (a b : tier) : bool :=
  match a, b with
  | AllClear, AllClear | Minor, Minor | Major, Major
  | Deadly, Deadly | Default, Default => true
  | _, _ => false
  end.

(** Lines 34-41. *)
Definition determine_severity (warning_title : string) : tier :=
  let title_lower := lower warning_title in
  if str_in "cancellation" title_lower then AllClear
  else if str_in "tornado" title_lower || str_in "destructive" title_lower then Deadly
  else if str_in "severe" title_lower || str_in "fire" title_lower then Major
  else if str_in "strong wind" title_lower || str_in "hazardous surf" title_lower then Minor
  else Default.

(** The classifier as the specification words it: an ordered list of
    rules, each a set of keywords with a tier; the first rule one of
    whose keywords occurs in the lower-cased title wins, and a title no
    rule matches is [Default]. *)
Definition rule : Type := (list string * tier)%type.

Definition rule_list : list rule :=
  [ (["cancellation"], AllClear);
    (["tornado"; "destructive"], Deadly);
    (["severe"; "fire"], Major);
    (["strong wind"; "hazardous surf"], Minor) ].

Definition rule_matches (title_lower : string) (r : rule) : bool :=
  existsb (fun kw => str_in kw title_lower) (fst r).

Fixpoint first_match (rules : list rule) (title_lower : string) : tier :=
  match rules with
  | [] => Default
  | r :: rest =>
      if rule_matches title_lower r then snd r else first_match rest title_lower
  end.

Definition classify (title : string) : tier :=
  first_match rule_list (lower title).

End Severity.

(* ===================================================================== *)
(** ** The fragment of [xml.etree.ElementTree] used by the program *)
(* ===================================================================== *)

Module ETree.

(** An [Element]: tag, attribute dictionary, [text] (which is [None] for an
    element without character data before its first child) and children
    in document order. *)
#[warnings="-register-all"] Inductive Element : Type :=
| Elem (tag : string) (attrib : list (string * string))
       (text : option string) (children : list Element).

Definition tag (e : Element) : string := let (t, _, _, _) := e in t.
Definition attrib (e : Element) : list (string * string) := let (_, a, _, _) := e in a.
Definition text (e : Element) : option string := let (_, _, x, _) := e in x.
Definition children (e : Element) : list Element := let (_, _, _, c) := e in c.

(** [elem.get(key)]. *)
Fixpoint lookup (key : string) (d : list (string * string)) : option string :=
  match d with
  | [] => None
  | (k, v) :: rest => if String.eqb k key then Some v else lookup key rest
  end.

Definition get (e : Element) (key : string) : option string :=
  lookup key (attrib e).

(** [list(elem.iter())]: the element, then its subtree in document order. *)
Fixpoint iter (e : Element) : list Element :=
  match e with
  | Elem _ _ _ cs => e :: flat_map iter cs
  end.

Definition has_tag (t : string) (e : Element) : bool := String.eqb (tag e) t.

Definition value_is (v : string) (x : option string) : bool :=
  match x with
  | Some y => String.eqb y v
  | None => false
  end.

(** The selectors [ElementPath] builds for the paths of the program:
    ".", "//tag", "/tag" and "[@key='value']". *)
Inductive step : Type :=
| Self
| Descendant (t : string)
| Child (t : string)
| AttrEq (key value : string).

(** One selector applied to the current result sequence.  [Descendant]
    walks [elem.iter(tag)] and skips [elem] itself; [Child] walks the
    direct children; [AttrEq] keeps the elements whose attribute is the
    value. *)
Definition select (s : step) (result : list Element) : list Element :=
  match s with
  | Self => result
  | Descendant t => flat_map (fun elem => filter (has_tag t) (tl (iter elem))) result
  | Child t => flat_map (fun elem => filter (has_tag t) (children elem)) result
  | AttrEq k v => filter (fun elem => value_is v (get elem k)) result
  end.

(** [elem.iterfind(path)] and [elem.find(path)] (first match or [None]). *)
Definition iterfind (elem : Element) (path : list step) : list Element :=
  fold_left (fun result s => select s result) path [elem].

Definition find (elem : Element) (path : list step) : option Element :=
  hd_error (iterfind elem path).

End ETree.

(* ===================================================================== *)
(** ** Exceptions and program state *)
(* ===================================================================== *)

Module Py.
Import Severity.

(** The exceptions that can reach a handler of the program.
    [NetworkFailure] stands for the failures of the transport other than a
    permanent FTP reply: [socket.timeout], [socket.gaierror],
    [ConnectionRefusedError], [ftplib.error_temp], [ftplib.error_proto],
    [EOFError]. *)
Inductive exn : Type :=
| error_perm          (* ftplib.error_perm: a 5xx reply *)
| NetworkFailure
| ParseError          (* xml.etree.ElementTree.ParseError *)
| AttributeError
| TypeError
| TclError            (* tkinter.TclError *)
| KeyboardInterrupt.

(** [isinstance(e, ftplib.error_perm)]. *)
Definition is_error_perm (e : exn) : bool :=
  match e with error_perm => true | _ => false end.

(** [isinstance(e, KeyboardInterrupt)]. *)
Definition is_KeyboardInterrupt (e : exn) : bool :=
  match e with KeyboardInterrupt => true | _ => false end.

(** [isinstance(e, Exception)]: everything but [KeyboardInterrupt], which
    derives from [BaseException] only. *)
Definition is_Exception (e : exn) : bool := negb (is_KeyboardInterrupt e).

(** The dictionary returned by [fetch_and_parse_warning]. *)
Record Warning : Type := mkWarning {
  id : string;
  title : string;
  message : string
}.

(** The configuration dictionary of [config.json]. *)
Record Config : Type := mkConfig {
  state : string;
  town : string;
  warning_file : string
}.

(** Status of the FTP connection object made by the last fetch. *)
Inductive connection : Type := NotOpened | Open | Closed.

(** What the program does to the outside, in order. *)
Inductive event : Type :=
| PrintCheckError (e : exn)      (* print(f"An error occurred during check: {e}") *)
| PrintCriticalError (e : exn)   (* print(f"A critical error occurred in the main loop: {e}") *)
| DisplayAlert (alert_data : Warning)   (* entry of app.display_alert(alert_data) *)
| Window (title message : string) (severity : tier)  (* the full-screen window, shown and dismissed *)
| Sleep (seconds : nat).         (* time.sleep(seconds) *)

Record world : Type := mkWorld {
  conn : connection;
  processed_warning_id : option string;   (* the local of main_loop *)
  trace : list event
}.

Definition set_conn (c : connection) (w : world) : world :=
  mkWorld c (processed_warning_id w) (trace w).

Definition set_processed (p : option string) (w : world) : world :=
  mkWorld (conn w) p (trace w).

Definition emit (ev : event) (w : world) : world :=
  mkWorld (conn w) (processed_warning_id w) (trace w ++ [ev]).

(** Result of running a piece of code: a value or a raised exception. *)
Inductive outcome (A : Type) : Type :=
| Return (a : A)
| Raise (e : exn).
Arguments Return {A} a.
Arguments Raise {A} e.

Definition M (A : Type) : Type := world -> outcome A * world.

Definition ret {A} (a : A) : M A := fun w => (Return a, w).

Definition raise {A} (e : exn) : M A := fun w => (Raise e, w).

Definition bind {A B} (m : M A) (k : A -> M B) : M B :=
  fun w =>
    match m w with
    | (Return a, w') => k a w'
    | (Raise e, w') => (Raise e, w')
    end.

Definition effect (f : world -> world) : M unit := fun w => (Return tt, f w).

Definition read {A} (f : world -> A) : M A := fun w => (Return (f w), w).

(** An [except] clause: the class test and the handler. *)
Definition clause (A : Type) : Type := ((exn -> bool) * (exn -> M A))%type.

(** The first clause whose class the exception belongs to handles it; an
    exception no clause names propagates. *)
Fixpoint dispatch {A} (clauses : list (clause A)) (e : exn) : M A :=
  match clauses with
  | [] => raise e
  | (cls, handler) :: rest => if cls e then handler e else dispatch rest e
  end.

(** [try: body  except ...: ...]. *)
Definition try_except {A} (body : M A) (clauses : list (clause A)) : M A :=
  fun w =>
    match body w with
    | (Return a, w') => (Return a, w')
    | (Raise e, w') => dispatch clauses e w'
    end.

(** Code that leaves the world as it found it. *)
Definition pure {A} (m : M A) : Prop := forall w, snd (m w) = w.

End Py.

Declare Scope py_scope.
Delimit Scope py_scope with py.
Notation "x <- m ;; k" := (Py.bind m (fun x => k))
  (at level 61, m at next level, right associativity) : py_scope.
Notation "m ;; k" := (Py.bind m (fun _ => k))
  (at level 61, right associativity) : py_scope.

(* ===================================================================== *)
(** ** [fetch_and_parse_warning] (lines 128-169) *)
(* ===================================================================== *)

Module Fetch.
Import Text ETree Py.
Local Open Scope py_scope.

(** A downloaded file, identified with what [ET.parse] makes of it. *)
Inductive feed_file : Type :=
| Unparseable
| Document (root : Element).

(** How the server at ftp.bom.gov.au answers each call made on the
    connection during one fetch. *)
Inductive reply (A : Type) : Type :=
| Ok (a : A)
| Err (e : exn).
Arguments Ok {A} a.
Arguments Err {A} e.

Record server : Type := mkServer {
  on_connect : reply unit;              (* ftplib.FTP("ftp.bom.gov.au", timeout=20) *)
  on_login : reply unit;                (* ftp.login() *)
  on_cwd : reply unit;                  (* ftp.cwd("/anon/gen/fwo/") *)
  on_retr : string -> reply feed_file;  (* ftp.retrbinary("RETR <name>", flo.write) *)
  on_quit : reply unit                  (* ftp.quit() *)
}.

Definition answer {A} (r : reply A) : M A :=
  match r with
  | Ok a => ret a
  | Err e => raise e
  end.

(** The constructor connects; the connection exists once it has returned. *)
Definition FTP (srv : server) : M unit :=
  answer (on_connect srv) ;; effect (set_conn Open).

Definition login (srv : server) : M unit := answer (on_login srv).

Definition cwd (srv : server) : M unit := answer (on_cwd srv).

Definition retrbinary (srv : server) (name : string) : M feed_file :=
  answer (on_retr srv name).

(** [ftplib.FTP.quit] sends QUIT and closes the socket after the reply. *)
Definition quit (srv : server) : M unit :=
  answer (on_quit srv) ;; effect (set_conn Closed).

(** [ET.parse(flo).getroot()]. *)
Definition parse (flo : feed_file) : M Element :=
  match flo with
  | Unparseable => raise ParseError
  | Document root => ret root
  end.

(** Lines 144-147, and the two paths of line 153. *)
Definition path_to_area : list step :=
  [Self; Descendant "text"; AttrEq "type" "warning_area_summary"; Child "p"].
Definition path_to_title : list step :=
  [Self; Descendant "text"; AttrEq "type" "warning_title"; Child "p"].
Definition path_to_headline : list step :=
  [Self; Descendant "text"; AttrEq "type" "warning_headline"].
Definition path_to_situation : list step :=
  [Self; Descendant "text"; AttrEq "type" "synoptic_situation"; Child "p"].
Definition path_to_identifier : list step :=
  [Self; Descendant "amoc"; Child "identifier"].
Definition path_to_issue_time : list step :=
  [Self; Descendant "amoc"; Child "issue-time-utc"].

(** [x.text] where [x] is the result of a [find]. *)
Definition dot_text (x : option Element) : M (option string) :=
  match x with
  | Some e => ret (text e)
  | None => raise AttributeError
  end.

(** [a + b] on values that are [str] or [None]. *)
Definition add (a b : option string) : M string :=
  match a, b with
  | Some x, Some y => ret (x ++ y)
  | _, _ => raise TypeError
  end.

(** [x.strip()] on a value that is a [str] or [None]. *)
Definition dot_strip (x : option string) : M string :=
  match x with
  | Some s => ret (strip s)
  | None => raise AttributeError
  end.

(** Lines 149-162 and the fall-through to line 169: the extraction from the
    parsed document. *)
Definition extract (root : Element) (config : Config) : M (option Warning) :=
  let area_element := find root path_to_area in
  match area_element with
  | None => ret None
  | Some ae =>
      match text ae with
      | None => ret None
      | Some area_desc =>
          ident <- dot_text (find root path_to_identifier) ;;
          issue <- dot_text (find root path_to_issue_time) ;;
          warning_id <- add ident issue ;;
          if str_in (lower (town config)) (lower area_desc) then
            title <- dot_text (find root path_to_title) ;;
            headline <- dot_text (find root path_to_headline) ;;
            situation <- dot_text (find root path_to_situation) ;;
            let full_message := fmt headline ++ LF ++ LF ++ fmt situation in
            stripped_title <- dot_strip title ;;
            ret (Some (mkWarning warning_id stripped_title (strip full_message)))
          else ret None
      end
  end.

(** Lines 131-162: the body of the [try].  The calls on the connection
    are where an exception comes from outside, a [KeyboardInterrupt]
    included; the steps between them run uninterrupted. *)
Definition fetch_body (srv : server) (config : Config) : M (option Warning) :=
  FTP srv ;;
  login srv ;;
  cwd srv ;;
  flo <- retrbinary srv (warning_file config) ;;
  quit srv ;;
  root <- parse flo ;;
  extract root config.

(** Lines 128-169. *)
Definition fetch_and_parse_warning (srv : server) (config : Config)
  : M (option Warning) :=
  try_except (fetch_body srv config)
    [ (is_error_perm, fun _ => ret None);
      (is_Exception, fun e => effect (emit (PrintCheckError e)) ;; ret None) ].

End Fetch.

(* ===================================================================== *)
(** ** [display_alert] (lines 48-69) and [main_loop] (lines 171-197) *)
(* ===================================================================== *)

Module Loop.
Import Text Severity ETree Py Fetch.
Local Open Scope py_scope.

(** What the windowing toolkit does when asked for the alert window. *)
Inductive ui : Type :=
| Dismissed            (* the window is shown and the user closes it *)
| Fails (e : exn).     (* a toolkit call raises *)

(** Lines 54-69: the full-screen window. *)
Definition show_window (u : ui) (alert_data : Warning) (severity_name : tier) : M unit :=
  match u with
  | Dismissed => effect (emit (Window (title alert_data) (message alert_data) severity_name))
  | Fails e => raise e
  end.

(** Lines 48-69.  The lookup of line 51 in [SEVERITY_LEVELS] is total on
    the five tiers and only chooses the colours and the icon of the
    window; the window is recorded with its tier. *)
Definition display_alert (u : ui) (alert_data : Warning) : M unit :=
  effect (emit (DisplayAlert alert_data)) ;;
  let severity_name := determine_severity (title alert_data) in
  if tier_eqb severity_name AllClear then ret tt
  else show_window u alert_data severity_name.

(** What one iteration of the loop meets: the server and the toolkit. *)
Record env : Type := mkEnv {
  srv : server;
  gui : ui
}.

(** [warning["id"] != processed_warning_id]. *)
Definition differs (i : string) (p : option string) : bool :=
  match p with
  | Some q => negb (String.eqb i q)
  | None => true
  end.

(** Lines 182-191: the body of the [try] in the loop.  [time.sleep] is
    recorded as an event: it runs to its end, as [print] does. *)
Definition loop_body (config : Config) (e : env) : M unit :=
  warning <- fetch_and_parse_warning (srv e) config ;;
  match warning with
  | Some w =>
      p <- read processed_warning_id ;;
      if differs (id w) p then
        display_alert (gui e) w ;;
        effect (set_processed (Some (id w)))
      else ret tt
  | None => effect (set_processed None)
  end ;;
  effect (emit (Sleep 300)).

Inductive control : Type := Continue | Break.

(** Lines 181-197: one iteration of [while True]. *)
Definition iteration (config : Config) (e : env) : M control :=
  try_except (loop_body config e ;; ret Continue)
    [ (is_KeyboardInterrupt, fun _ => ret Break);
      (is_Exception, fun x =>
         effect (emit (PrintCriticalError x)) ;;
         effect (emit (Sleep 300)) ;;
         ret Continue) ].

(** The loop over the environments of its successive iterations. *)
Fixpoint iterations (config : Config) (envs : list env) : M unit :=
  match envs with
  | [] => ret tt
  | e :: rest =>
      c <- iteration config e ;;
      match c with
      | Continue => iterations config rest
      | Break => ret tt
      end
  end.

(** Line 175: the loop starts with [processed_warning_id = None]. *)
Definition initial : world := mkWorld NotOpened None [].

Definition main_loop (config : Config) (envs : list env) : outcome unit * world :=
  iterations config envs initial.

(** The occurrence tracker as the specification words it:
    [observe current lastNotified = (isNovel, newLastNotified)]. *)
Definition observe (current : option Warning) (lastNotified : option string)
  : bool * option string :=
  match current with
  | None => (false, None)
  | Some w =>
      if differs (id w) lastNotified then (true, Some (id w))
      else (false, lastNotified)
  end.

End Loop.

(* ===================================================================== *)
(** ** Observations on traces, and sample inputs *)
(* ===================================================================== *)

Module Observe.
Import Py Fetch.

(** The arguments of the calls of [display_alert] recorded in a trace. *)
Fixpoint display_calls (t : list event) : list Warning :=
  match t with
  | [] => []
  | DisplayAlert a :: rest => a :: display_calls rest
  | _ :: rest => display_calls rest
  end.

(** The number of alert windows recorded in a trace. *)
Fixpoint windows (t : list event) : nat :=
  match t with
  | [] => 0
  | Window _ _ _ :: rest => S (windows rest)
  | _ :: rest => windows rest
  end.

(** The text of the first element a path finds, when there is one. *)
Definition field (root : ETree.Element) (path : list ETree.step) : option string :=
  match ETree.find root path with
  | Some e => ETree.text e
  | None => None
  end.

(** The world after the handlers of [fetch_and_parse_warning] have dealt
    with an exception of class [Exception]: a permanent FTP reply is
    silent, anything else is printed. *)
Definition logged (x : exn) (w : world) : world :=
  if is_error_perm x then w else emit (PrintCheckError x) w.

(** A server on which every call of the session succeeds. *)
Definition serving (f : feed_file) : server :=
  mkServer (Ok tt) (Ok tt) (Ok tt) (fun _ => Ok f) (Ok tt).

End Observe.

Module Samples.
Import ETree Py Fetch Loop Observe.

Definition leaf (t : string) (s : string) : Element := Elem t [] (Some s) [].

Definition section (type : string) (body : string) : Element :=
  Elem "text" [("type", type)] None [leaf "p" body].

(** A bulletin in the shape of the Bureau's IDQ21037.xml. *)
Definition bulletin (ident issue ttl area headline situation : string) : Element :=
  Elem "product" [("version", "1.7")] None
    [ Elem "amoc" [] None
        [ leaf "source" "Bureau of Meteorology";
          leaf "identifier" ident;
          leaf "issue-time-utc" issue ];
      Elem "warning" [] None
        [ Elem "warning-info" [] None
            [ section "warning_title" ttl;
              section "warning_area_summary" area;
              Elem "text" [("type", "warning_headline")] (Some headline) [];
              section "synoptic_situation" situation ] ] ].

Definition storm : Element :=
  bulletin "IDQ21037" "2024-01-05T03:10:00Z"
    " Severe Thunderstorm Warning "
    "People in Ipswich, Logan and parts of Brisbane City."
    "Damaging winds and large hailstones."
    "A trough is moving east across the region. ".

Definition storm_cancelled : Element :=
  bulletin "IDQ21037" "2024-01-05T04:40:00Z"
    "Cancellation of Severe Thunderstorm Warning"
    "People in Ipswich, Logan and parts of Brisbane City."
    "The immediate threat has passed."
    "Thunderstorms have eased.".

(** A bulletin whose area summary has no text. *)
Definition storm_no_area : Element :=
  Elem "product" [] None
    [ Elem "text" [("type", "warning_area_summary")] None [Elem "p" [] None []] ].

Definition ipswich : Config := mkConfig "Queensland" "ipswich" "IDQ21037.xml".
Definition cairns : Config := mkConfig "Queensland" "Cairns" "IDQ21037.xml".

(** RETR answered 550: the warning file is not on the server. *)
Definition server_not_found : server :=
  mkServer (Ok tt) (Ok tt) (Ok tt) (fun _ => Err error_perm) (Ok tt).

(** The connection attempt times out. *)
Definition server_timeout : server :=
  mkServer (Err NetworkFailure) (Ok tt) (Ok tt) (fun _ => Ok Unparseable) (Ok tt).

Definition storm_warning : Warning :=
  mkWarning "IDQ210372024-01-05T03:10:00Z" "Severe Thunderstorm Warning"
    ("Damaging winds and large hailstones." ++ Text.LF ++ Text.LF ++
     "A trough is moving east across the region.").

Definition cancelled_warning : Warning :=
  mkWarning "IDQ210372024-01-05T04:40:00Z" "Cancellation of Severe Thunderstorm Warning"
    ("The immediate threat has passed." ++ Text.LF ++ Text.LF ++
     "Thunderstorms have eased.").

(** A loop that has already notified [storm_warning]. *)
Definition notified : world := mkWorld Closed (Some (id storm_warning)) [].

End Samples.

(* ===================================================================== *)
(** ** [SEVERITY_LEVELS] (lines 28-32) and the styling of the window *)
(* ===================================================================== *)

Module Style.
Import Severity.

(** [d.get(key)] on a dictionary with string keys. *)
Fixpoint assoc {V : Type} (key : string) (d : list (string * V)) : option V :=
  match d with
  | [] => None
  | (k, v) :: rest => if String.eqb k key then Some v else assoc key rest
  end.

(** The strings [determine_severity] returns for the tiers. *)
Definition severity_name (t : tier) : string :=
  match t with
  | AllClear => "All Clear"
  | Minor => "Minor"
  | Major => "Major"
  | Deadly => "Deadly"
  | Default => "Default"
  end.

(** Lines 28-32. *)
Definition SEVERITY_LEVELS : list (string * list (string * string)) :=
  [ ("All Clear", [("color", "green"); ("icon", "✅")]);
    ("Minor", [("color", "gold"); ("icon", "⚠️")]);
    ("Major", [("color", "red"); ("icon", "❗")]);
    ("Deadly", [("color", "black"); ("text_color", "white"); ("icon", "☠️")]);
    ("Default", [("color", "darkorange"); ("icon", "📢")]) ].

(** Line 51: [SEVERITY_LEVELS.get(severity_name, SEVERITY_LEVELS["Default"])];
    [None] stands for the [KeyError] of a table without "Default". *)
Definition level_config (name : string) : option (list (string * string)) :=
  match assoc "Default" SEVERITY_LEVELS with
  | None => None
  | Some fallback =>
      match assoc name SEVERITY_LEVELS with
      | Some c => Some c
      | None => Some fallback
      end
  end.

(** [config["color"]], the background of the window and of its labels. *)
Definition bg (config : list (string * string)) : option string :=
  assoc "color" config.

(** [config.get("text_color", "black")], the foreground of the labels. *)
Definition fg (config : list (string * string)) : string :=
  match assoc "text_color" config with
  | Some c => c
  | None => "black"
  end.

(** [config["icon"]]. *)
Definition icon (config : list (string * string)) : option string :=
  assoc "icon" config.

End Style.

(* ===================================================================== *)
(** ** Further observations on the loop *)
(* ===================================================================== *)

Module Accounting.
Import Py Fetch Loop.

(** The seconds spent in [time.sleep] according to a trace. *)
Fixpoint slept (t : list event) : nat :=
  match t with
  | [] => 0
  | Sleep n :: rest => n + slept rest
  | _ :: rest => slept rest
  end.


Definition is_interrupt {A} (r : reply A) : bool :=
  match r with
  | Err KeyboardInterrupt => true
  | _ => false
  end.

(** Some call of the iteration can be answered by [KeyboardInterrupt]. *)
Definition interruptible (config : Config) (e : env) : bool :=
  is_interrupt (on_connect (srv e)) || is_interrupt (on_login (srv e)) ||
  is_interrupt (on_cwd (srv e)) ||
  is_interrupt (on_retr (srv e) (warning_file config)) ||
  is_interrupt (on_quit (srv e)) ||
  match gui e with
  | Fails KeyboardInterrupt => true
  | _ => false
  end.

(** The recorded identity is the id of a warning [display_alert] was
    called with. *)
Definition recorded_was_displayed (w : world) : Prop :=
  forall i, processed_warning_id w = Some i ->
            exists a, In a (Observe.display_calls (trace w)) /\ id a = i.

(** The ways an iteration of the loop goes, by the result of the fetch
    and of the presentation: the control it returns and the world it
    leaves. *)
Inductive cycle (config : Config) (e : env) (w : world) : control -> world -> Prop :=
| cycle_none w1 :
    fetch_and_parse_warning (srv e) config w = (Return None, w1) ->
    cycle config e w Continue (emit (Sleep 300) (set_processed None w1))
| cycle_known a w1 :
    fetch_and_parse_warning (srv e) config w = (Return (Some a), w1) ->
    differs (id a) (processed_warning_id w) = false ->
    cycle config e w Continue (emit (Sleep 300) w1)
| cycle_shown a w1 w2 :
    fetch_and_parse_warning (srv e) config w = (Return (Some a), w1) ->
    differs (id a) (processed_warning_id w) = true ->
    display_alert (gui e) a w1 = (Return tt, w2) ->
    cycle config e w Continue (emit (Sleep 300) (set_processed (Some (id a)) w2))
| cycle_failed a w1 w2 x :
    fetch_and_parse_warning (srv e) config w = (Return (Some a), w1) ->
    differs (id a) (processed_warning_id w) = true ->
    display_alert (gui e) a w1 = (Raise x, w2) ->
    is_Exception x = true ->
    cycle config e w Continue (emit (Sleep 300) (emit (PrintCriticalError x) w2))
| cycle_interrupted_alert a w1 w2 :
    fetch_and_parse_warning (srv e) config w = (Return (Some a), w1) ->
    differs (id a) (processed_warning_id w) = true ->
    display_alert (gui e) a w1 = (Raise KeyboardInterrupt, w2) ->
    cycle config e w Break w2
| cycle_interrupted_fetch w1 :
    fetch_and_parse_warning (srv e) config w = (Raise KeyboardInterrupt, w1) ->
    cycle config e w Break w1.

(** The texts the extraction lower-cases or strips (area summary, title,
    headline and situation) are ASCII where the document has them. *)
Definition ascii_fields (root : ETree.Element) : bool :=
  forallb (fun path =>
             match Observe.field root path with
             | Some s => Text.isascii s
             | None => true
             end)
          [path_to_area; path_to_title; path_to_headline; path_to_situation].

(** A string without white space at either end. *)
Definition trimmed (s : string) : Prop := Text.strip s = s.

(** The string starts with white space. *)
Definition headspace (s : string) : bool :=
  match s with
  | EmptyString => false
  | String c _ => Text.isspace c
  end.

(** A case-insensitive occurrence of a keyword in a title. *)
Definition mentions (kw title : string) : Prop :=
  exists pre mid post,
    title = (pre ++ mid ++ post)%string /\ Text.lower mid = kw.

End Accounting.

(* ===================================================================== *)
(** ** Configuration, first-time setup and start of the program
       (lines 14-25, 72-125 and 200-214) *)
(* ===================================================================== *)

Module Setup.
Import Text Py Style.

(** Lines 14-23. *)
Definition STATE_MAP : list (string * string) :=
  [ ("Queensland", "IDQ21037.xml");
    ("New South Wales", "IDN21037.xml");
    ("Victoria", "IDV21033.xml");
    ("South Australia", "IDS21037.xml");
    ("Western Australia", "IDW21037.xml");
    ("Tasmania", "IDT21037.xml");
    ("Northern Territory", "IDD21037.xml");
    ("Australian Capital Territory", "IDN21037.xml") ].

(** The values [json.load] can return (numbers: the integers), which are
    also the values [config] can hold; [JNull] is [None]. *)
#[warnings="-register-all"] Inductive json : Type :=
| JNull
| JBool (b : bool)
| JNum (n : Z)
| JStr (s : string)
| JArr (items : list json)
| JObj (members : list (string * json)).

(** [bool(v)]. *)
Definition truthy (v : json) : bool :=
  match v with
  | JNull => false
  | JBool b => b
  | JNum n => negb (Z.eqb n 0)
  | JStr s => negb (String.eqb s EmptyString)
  | JArr items => match items with [] => false | _ => true end
  | JObj members => match members with [] => false | _ => true end
  end.

(** The exceptions nothing in the program handles. *)
Inductive uncaught : Type :=
| OSError                  (* open() refused: PermissionError and the like *)
| KeyError (key : string)
| SubscriptError.          (* TypeError: v[key] on a value that is no dict *)

Inductive result (A : Type) : Type :=
| Value (a : A)
| Uncaught (e : uncaught).
Arguments Value {A} a.
Arguments Uncaught {A} e.

(** [v[key]] for a string key. *)
Definition subscript (v : json) (key : string) : result json :=
  match v with
  | JObj members =>
      match assoc key members with
      | Some x => Value x
      | None => Uncaught (KeyError key)
      end
  | _ => Uncaught SubscriptError
  end.

(** What is at the path [CONFIG_FILE]. *)
Inductive file : Type :=
| Absent
| Unreadable          (* it exists and open() raises an OSError *)
| NotJson             (* its content makes json.load raise JSONDecodeError *)
| Json (v : json).    (* its content decodes to v *)

Record fs : Type := mkFs {
  config_json : file;
  read_only : bool      (* open(CONFIG_FILE, 'w') raises an OSError *)
}.

(** Lines 72-80. *)
Definition load_config (disk : fs) : result json :=
  match config_json disk with
  | Absent => Value JNull                 (* line 75 *)
  | Unreadable => Uncaught OSError        (* not among the handled classes *)
  | NotJson => Value JNull                (* line 80 *)
  | Json v => Value v
  end.

(** Lines 82-85.  The write either is refused by [open] or succeeds. *)
Definition save_config (data : json) (disk : fs) : result unit * fs :=
  if read_only disk then (Uncaught OSError, disk)
  else (Value tt, mkFs (Json data) (read_only disk)).

(** The dialogs of [tkinter.simpledialog] and [tkinter.messagebox]. *)
Inductive dialog : Type :=
| askstring (title prompt : string)
| showerror (title message : string)
| showwarning (title message : string)
| showinfo (title message : string).

(** [sep.join(items)]. *)
Fixpoint join (sep : string) (items : list string) : string :=
  match items with
  | [] => EmptyString
  | [x] => x
  | x :: rest => x ++ sep ++ join sep rest
  end.

(** Lines 93-94. *)
Definition state_options : string := join LF (map fst STATE_MAP).
Definition state_prompt : string :=
  "Welcome to WxAlert!" ++ LF ++ LF ++
  "Please select your State by typing its name exactly as shown below:" ++
  LF ++ LF ++ state_options.

(** Line 105. *)
Definition town_prompt : string :=
  "Now, please enter the name of your nearest Town or City." ++ LF ++ LF ++
  "(e.g., Toowoomba, Cairns, Ipswich, etc.)".

Definition ask_state : dialog := askstring "WxAlert Setup (1/2) - State" state_prompt.
Definition ask_town : dialog := askstring "WxAlert Setup (2/2) - Town/City" town_prompt.

Definition setup_cancelled : dialog :=
  showerror "Setup Cancelled"
    "WxAlert cannot run without a location. The program will now exit.".

Definition invalid_state (user_state : string) : dialog :=
  showwarning "Invalid State"
    ("'" ++ user_state ++ "' is not a valid location. Please try again.").

Definition invalid_town : dialog :=
  showwarning "Invalid Town" "Town/City name cannot be blank.".

Definition setup_complete (user_town user_state : string) : dialog :=
  showinfo "Setup Complete"
    ("WxAlert is now configured for '" ++ user_town ++ ", " ++ user_state ++ "'." ++
     LF ++ LF ++ "The program will now run silently in the background.").

(** [key in STATE_MAP]. *)
Definition in_STATE_MAP (key : string) : bool :=
  match assoc key STATE_MAP with
  | Some _ => true
  | None => false
  end.

(** [bool(s)] for a string. *)
Definition nonempty (s : string) : bool := negb (String.eqb s EmptyString).

(** How a dialog loop ends when the user's answers are the given list
    ([None] is the Cancel button): with no answer left for an open
    dialog, with a cancellation, or with a value and the answers not yet
    used. *)
Inductive asked : Type :=
| NoAnswer
| Cancelled
| Answered (a : string) (rest : list (option string)).

(** Lines 95-102: [while user_state not in STATE_MAP]. *)
Fixpoint state_loop (user_state : string) (answers : list (option string))
  : list dialog * asked :=
  if in_STATE_MAP user_state then ([], Answered user_state answers)
  else
    match answers with
    | [] => ([ask_state], NoAnswer)
    | None :: _ => ([ask_state; setup_cancelled], Cancelled)
    | Some s :: rest =>
        let (shown, r) := state_loop s rest in
        (ask_state ::
         ((if in_STATE_MAP s then [] else [invalid_state s]) ++ shown)%list, r)
    end.

(** Lines 106-114: [while not user_town]. *)
Fixpoint town_loop (user_town : string) (answers : list (option string))
  : list dialog * asked :=
  if nonempty user_town then ([], Answered user_town answers)
  else
    match answers with
    | [] => ([ask_town], NoAnswer)
    | None :: _ => ([ask_town; setup_cancelled], Cancelled)
    | Some t :: rest =>
        if nonempty (strip t) then
          let (shown, r) := town_loop t rest in (ask_town :: shown, r)
        else
          let (shown, r) := town_loop EmptyString rest in
          (ask_town :: invalid_town :: shown, r)
    end.

(** Lines 117-121: the dictionary built from the two answers. *)
Definition config_data (c : Config) : json :=
  JObj [ ("state", JStr (state c));
         ("town", JStr (town c));
         ("warning_file", JStr (warning_file c)) ].

(** How [run_first_time_setup] ends. *)
Inductive setup_end : Type :=
| Pending                      (* a dialog is open, no answer left *)
| Returned (config : json)     (* [JNull] for [return None] *)
| Failed (e : uncaught).

(** Lines 87-125, on a toolkit whose dialogs work. *)
Definition run_first_time_setup (answers : list (option string)) (disk : fs)
  : list dialog * fs * setup_end :=
  match state_loop EmptyString answers with
  | (shown1, NoAnswer) => (shown1, disk, Pending)
  | (shown1, Cancelled) => (shown1, disk, Returned JNull)
  | (shown1, Answered user_state rest) =>
      match town_loop EmptyString rest with
      | (shown2, NoAnswer) => ((shown1 ++ shown2)%list, disk, Pending)
      | (shown2, Cancelled) => ((shown1 ++ shown2)%list, disk, Returned JNull)
      | (shown2, Answered user_town _) =>
          match assoc user_state STATE_MAP with
          | None => ((shown1 ++ shown2)%list, disk, Failed (KeyError user_state))
          | Some file_name =>
              let data := config_data (mkConfig user_state (strip user_town) file_name) in
              match save_config data disk with
              | (Uncaught e, disk') => ((shown1 ++ shown2)%list, disk', Failed e)
              | (Value _, disk') =>
                  ((shown1 ++ shown2 ++ [setup_complete user_town user_state])%list,
                   disk', Returned data)
              end
          end
      end
  end.

(** What the program shows and prints at its start. *)
Inductive output : Type :=
| PrintNoConfiguration       (* line 204 *)
| Dialog (d : dialog)
| PrintStarting              (* line 208 *)
| PrintMonitoring (town_value file_value : json)   (* line 209 *)
| PrintHowToStop             (* line 210 *)
| PrintCancelled.            (* line 213 *)

(** How the start of the program ends. *)
Inductive ending : Type :=
| Monitoring (config : json)   (* main_loop(config) is entered *)
| Exited                       (* sys.exit() *)
| Crashed (e : uncaught)
| AwaitingAnswer.

(** Lines 207-214, for the configuration at hand. *)
Definition launch (config : json) : list output * ending :=
  if truthy config then
    match subscript config "town" with
    | Uncaught e => ([PrintStarting], Crashed e)
    | Value town_value =>
        match subscript config "warning_file" with
        | Uncaught e => ([PrintStarting], Crashed e)
        | Value file_value =>
            ([PrintStarting; PrintMonitoring town_value file_value; PrintHowToStop],
             Monitoring config)
        end
    end
  else ([PrintCancelled], Exited).

(** Lines 200-214. *)
Definition program (answers : list (option string)) (disk : fs)
  : list output * fs * ending :=
  match load_config disk with
  | Uncaught e => ([], disk, Crashed e)
  | Value JNull =>
      match run_first_time_setup answers disk with
      | (shown, disk', Pending) =>
          (PrintNoConfiguration :: map Dialog shown, disk', AwaitingAnswer)
      | (shown, disk', Failed e) =>
          (PrintNoConfiguration :: map Dialog shown, disk', Crashed e)
      | (shown, disk', Returned config) =>
          let (out, e) := launch config in
          ((PrintNoConfiguration :: map Dialog shown ++ out)%list, disk', e)
      end
  | Value config =>
      let (out, e) := launch config in (out, disk, e)
  end.

(** The configuration [main_loop] reads from a dictionary whose "town" and
    "warning_file" are strings. *)
Definition as_Config (config : json) : option Config :=
  match subscript config "town", subscript config "warning_file" with
  | Value (JStr t), Value (JStr f) =>
      Some (mkConfig
              (match subscript config "state" with
               | Value (JStr s) => s
               | _ => EmptyString
               end) t f)
  | _, _ => None
  end.

End Setup.

(** Tactics for running monadic code. *)
Ltac py_unfold :=
  unfold Py.bind, Py.ret, Py.raise, Py.effect, Py.read, Py.try_except,
    Fetch.answer in *.

(* ===================================================================== *)
(** * Properties *)
(* ===================================================================== *)

Section TextFacts.
Import Text.

Lemma startswith_app (n rest : string) : startswith n (n ++ rest) = true.
Proof.
  induction n as [|c n IH]; simpl; [reflexivity|].
  now rewrite Ascii.eqb_refl, IH.
Qed.

Lemma startswith_split (n h : string) :
  startswith n h = true -> exists rest, h = n ++ rest.
Proof.
  revert h; induction n as [|c n IH]; intros h H; simpl in *.
  - now exists h.
  - destruct h as [|d h]; [discriminate|].
    apply andb_true_iff in H as [Hc Hn].
    apply Ascii.eqb_eq in Hc; subst d.
    destruct (IH _ Hn) as [rest ->]. now exists rest.
Qed.

Lemma str_in_here (n h : string) : startswith n h = true -> str_in n h = true.
Proof. intros H. destruct h; simpl; rewrite H; reflexivity. Qed.

(** [needle in hay] is exactly "hay = pre + needle + post". *)
Lemma str_in_iff (n h : string) :
  str_in n h = true <-> exists pre post, h = pre ++ n ++ post.
Proof.
  split.
  - induction h as [|c h IH]; simpl; intros H.
    + rewrite orb_false_r in H.
      destruct (startswith_split _ _ H) as [rest E].
      exists EmptyString, rest. exact E.
    + apply orb_true_iff in H as [H|H].
      * destruct (startswith_split _ _ H) as [rest E].
        exists EmptyString, rest. exact E.
      * destruct (IH H) as (pre & post & ->).
        exists (String c pre), post. reflexivity.
  - intros (pre & post & ->).
    induction pre as [|c pre IH]; simpl.
    + apply str_in_here, startswith_app.
    + rewrite IH. apply orb_true_r.
Qed.

Lemma lower_app (a b : string) : lower (a ++ b) = lower a ++ lower b.
Proof. induction a as [|c a IH]; simpl; [reflexivity | now rewrite IH]. Qed.

End TextFacts.

Section SeverityFacts.
Import Text Severity.

Lemma determine_severity_classify (title : string) :
  determine_severity title = classify title.
Proof.
  unfold determine_severity, classify, rule_list; simpl.
  unfold rule_matches; simpl.
  rewrite !orb_false_r.
  reflexivity.
Qed.

Lemma cancellation_wins (title pre mid post : string) :
  title = pre ++ mid ++ post ->
  lower mid = "cancellation" ->
  determine_severity title = AllClear.
Proof.
  intros -> Hmid. unfold determine_severity.
  assert (H : str_in "cancellation" (lower (pre ++ mid ++ post)) = true).
  { apply str_in_iff. exists (lower pre), (lower post).
    now rewrite !lower_app, Hmid. }
  now rewrite H.
Qed.

(** C4. [determine_severity] is a total function of the title that
    coincides with the ordered rule list read first-match-wins on the
    lower-cased title (cancellation, then tornado/destructive, then
    severe/fire, then strong wind/hazardous surf, else Default); and a
    title with an occurrence of "cancellation" in any letter case is
    classified AllClear whatever else it contains. *)
Theorem determine_severity_rules (title : string) :
  determine_severity title = classify title /\
  (forall pre mid post,
      title = pre ++ mid ++ post ->
      lower mid = "cancellation" ->
      determine_severity title = AllClear).
Proof.
  split.
  - apply determine_severity_classify.
  - intros pre mid post. apply cancellation_wins.
Qed.

Lemma determine_severity_rules_witness :
  determine_severity "Tornado CANCELLATION - Severe" = classify "Tornado CANCELLATION - Severe" /\
  determine_severity "Tornado CANCELLATION - Severe" = AllClear.
Proof.
  destruct (determine_severity_rules "Tornado CANCELLATION - Severe") as [H1 H2].
  split; [exact H1|].
  apply (H2 "Tornado " "CANCELLATION" " - Severe"); reflexivity.
Defined.

End SeverityFacts.

Section TraceFacts.
Import Py Observe.

Lemma display_calls_app (t u : list event) :
  display_calls (t ++ u) = (display_calls t ++ display_calls u)%list.
Proof.
  induction t as [|ev t IH]; simpl; [reflexivity|].
  destruct ev; simpl; now rewrite IH.
Qed.

Lemma windows_app (t u : list event) : windows (t ++ u) = windows t + windows u.
Proof.
  induction t as [|ev t IH]; simpl; [reflexivity|].
  destruct ev; simpl; now rewrite IH.
Qed.

Lemma differs_true (i : string) (p : option string) :
  Loop.differs i p = true <-> p <> Some i.
Proof.
  destruct p as [q|]; simpl.
  - rewrite negb_true_iff. split.
    + intros H E. injection E as ->. now rewrite String.eqb_refl in H.
    + intros H. apply String.eqb_neq. congruence.
  - split; [discriminate | reflexivity].
Qed.

Lemma differs_same (i : string) : Loop.differs i (Some i) = false.
Proof. simpl. now rewrite String.eqb_refl. Qed.

End TraceFacts.

(* --------------------------------------------------------------------- *)
(** ** The fetch *)
(* --------------------------------------------------------------------- *)

Section FetchFacts.
Import Text ETree Py Fetch Observe.

Lemma pure_ret {A} (a : A) : pure (ret a).
Proof. intros w. reflexivity. Qed.

Lemma pure_raise {A} (x : exn) : pure (@raise A x).
Proof. intros w. reflexivity. Qed.

Lemma pure_bind {A B} (m : M A) (k : A -> M B) :
  pure m -> (forall a, pure (k a)) -> pure (bind m k).
Proof.
  intros Hm Hk w. unfold bind. specialize (Hm w).
  destruct (m w) as [[a|x] w']; simpl in *; subst w'; [apply Hk | reflexivity].
Qed.

Lemma pure_dot_text (x : option Element) : pure (dot_text x).
Proof. destruct x; [apply pure_ret | apply pure_raise]. Qed.

Lemma pure_add (a b : option string) : pure (add a b).
Proof. destruct a, b; first [apply pure_ret | apply pure_raise]. Qed.

Lemma pure_dot_strip (x : option string) : pure (dot_strip x).
Proof. destruct x; [apply pure_ret | apply pure_raise]. Qed.

(** The extraction has no effect on the world. *)
Lemma extract_pure (root : Element) (config : Config) : pure (extract root config).
Proof.
  unfold extract.
  destruct (find root path_to_area) as [ae|]; [|apply pure_ret].
  destruct (text ae) as [area_desc|]; [|apply pure_ret].
  apply pure_bind; [apply pure_dot_text | intros ident].
  apply pure_bind; [apply pure_dot_text | intros issue].
  apply pure_bind; [apply pure_add | intros warning_id].
  destruct (str_in _ _); [|apply pure_ret].
  apply pure_bind; [apply pure_dot_text | intros ttl].
  apply pure_bind; [apply pure_dot_text | intros headline].
  apply pure_bind; [apply pure_dot_text | intros situation].
  apply pure_bind; [apply pure_dot_strip | intros st].
  apply pure_ret.
Qed.

(** Neither has the session, the connection status apart. *)
Lemma fetch_body_frame (srv : server) (config : Config) (w : world) :
  let w1 := snd (fetch_body srv config w) in
  processed_warning_id w1 = processed_warning_id w /\ trace w1 = trace w.
Proof.
  unfold fetch_body, FTP, login, cwd, retrbinary, quit, parse. py_unfold.
  destruct (on_connect srv); simpl; [|now split].
  destruct (on_login srv); simpl; [|now split].
  destruct (on_cwd srv); simpl; [|now split].
  destruct (on_retr srv (warning_file config)) as [f|]; simpl; [|now split].
  destruct (on_quit srv); simpl; [|now split].
  destruct f as [|root]; simpl; [now split|].
  pose proof (extract_pure root config
                (set_conn Closed (set_conn Open w))) as H.
  destruct (extract root config _) as [r w']; simpl in *; subst w'.
  now split.
Qed.

(** A result of the body is the result of the call. *)
Lemma fetch_returns (srv : server) (config : Config) (w w1 : world) r :
  fetch_body srv config w = (Return r, w1) ->
  fetch_and_parse_warning srv config w = (Return r, w1).
Proof. intros H. unfold fetch_and_parse_warning, try_except. now rewrite H. Qed.

(** An [Exception] of the body is handled: the call returns [None]. *)
Lemma fetch_handles (srv : server) (config : Config) (w w1 : world) (x : exn) :
  fetch_body srv config w = (Raise x, w1) ->
  is_Exception x = true ->
  fetch_and_parse_warning srv config w = (Return None, logged x w1).
Proof.
  intros H Hx. unfold fetch_and_parse_warning, try_except, logged.
  rewrite H; simpl.
  destruct x; simpl in *; try reflexivity; discriminate.
Qed.

(** The call leaves the tracker alone and neither calls [display_alert]
    nor shows a window. *)
Lemma fetch_frame (srv : server) (config : Config) (w w1 : world) r :
  fetch_and_parse_warning srv config w = (r, w1) ->
  processed_warning_id w1 = processed_warning_id w /\
  display_calls (trace w1) = display_calls (trace w) /\
  windows (trace w1) = windows (trace w).
Proof.
  unfold fetch_and_parse_warning, try_except.
  pose proof (fetch_body_frame srv config w) as [Hp Ht]; simpl in *.
  destruct (fetch_body srv config w) as [[a|x] w']; simpl in *.
  - intros [= <- <-]. now rewrite Hp, Ht.
  - destruct x; simpl; py_unfold; simpl; intros [= <- <-]; simpl;
      rewrite ?display_calls_app, ?windows_app, Hp, Ht; simpl;
      rewrite ?app_nil_r, ?Nat.add_0_r; auto.
Qed.

(** On a session without failure the call is the extraction, and the
    connection is closed. *)
Lemma fetch_serving (root : Element) (config : Config) (w : world) :
  fetch_and_parse_warning (serving (Document root)) config w =
  try_except (extract root config)
    [ (is_error_perm, fun _ => ret None);
      (is_Exception, fun e => bind (effect (emit (PrintCheckError e))) (fun _ => ret None)) ]
    (set_conn Closed w).
Proof. reflexivity. Qed.

End FetchFacts.

(* --------------------------------------------------------------------- *)
(** ** The extractor: what the fetch returns for a downloaded document *)
(* --------------------------------------------------------------------- *)

Section ExtractorFacts.
Import Text ETree Py Fetch Loop Observe Samples.

Lemma field_some (root : Element) (path : list step) (s : string) :
  field root path = Some s ->
  exists e, find root path = Some e /\ text e = Some s.
Proof.
  unfold field. destruct (find root path) as [e|]; [|discriminate].
  intros H. now exists e.
Qed.

(** When the town is not in the area summary the extraction yields no
    warning, or stops on a missing identity field before the test. *)
Lemma extract_no_town (root : Element) (config : Config) (w : world) ae area :
  find root path_to_area = Some ae ->
  text ae = Some area ->
  str_in (lower (town config)) (lower area) = false ->
  extract root config w = (Return None, w) \/
  extract root config w = (Raise AttributeError, w) \/
  extract root config w = (Raise TypeError, w).
Proof.
  intros Ha Ht Hin. unfold extract. rewrite Ha, Ht, Hin.
  unfold dot_text, add. py_unfold.
  destruct (find root path_to_identifier) as [ie|]; [|now auto].
  destruct (find root path_to_issue_time) as [te|]; [|now auto].
  destruct (text ie), (text te); now auto.
Qed.

(** An area summary with empty text contains no town: the third case of
    the theorem below covers it for every configured (non-empty) town. *)
Lemma empty_area_never_matches (config : Config) :
  town config <> EmptyString -> str_in (lower (town config)) (lower EmptyString) = false.
Proof.
  intros H. destruct (town config) as [|c t]; [congruence | reflexivity].
Qed.

(** C5. For a downloaded document that parses, the fetch returns [None]
    whenever the area-summary paragraph is absent, or it has no text (an
    empty paragraph has [text = None]), or its text does not contain the
    configured town as a substring, letter case ignored (town and area
    summary being ASCII text, on which [lower] is [str.lower]). *)
Theorem fetch_none_without_town (root : Element) (config : Config) (w : world) :
  find root path_to_area = None \/
  (exists ae, find root path_to_area = Some ae /\ text ae = None) \/
  (exists ae area, find root path_to_area = Some ae /\ text ae = Some area /\
                   isascii (town config) = true /\ isascii area = true /\
                   str_in (lower (town config)) (lower area) = false) ->
  fst (fetch_and_parse_warning (serving (Document root)) config w) = Return None.
Proof.
  intros H. rewrite fetch_serving. unfold try_except.
  destruct H as [Ha | [(ae & Ha & Ht) | (ae & area & Ha & Ht & _ & _ & Hin)]].
  - unfold extract. now rewrite Ha.
  - unfold extract. now rewrite Ha, Ht.
  - destruct (extract_no_town root config (set_conn Closed w) ae area Ha Ht Hin)
      as [E | [E | E]]; now rewrite E.
Qed.

Lemma fetch_none_without_town_witness :
  fst (fetch_and_parse_warning (serving (Document storm)) cairns initial) = Return None /\
  fst (fetch_and_parse_warning (serving (Document storm_no_area)) ipswich initial) = Return None.
Proof.
  split.
  - apply (fetch_none_without_town storm cairns initial).
    right; right.
    exists (leaf "p" "People in Ipswich, Logan and parts of Brisbane City.").
    exists "People in Ipswich, Logan and parts of Brisbane City.".
    repeat split; reflexivity.
  - apply (fetch_none_without_town storm_no_area ipswich initial).
    right; left. exists (Elem "p" [] None []). split; reflexivity.
Defined.

(** C6. For a downloaded document that parses, has each of the six fields
    and whose area summary contains the configured town (letter case
    ignored), the fetch returns the warning whose id is the identifier
    followed by the issue time, whose title is the title text stripped,
    and whose message is the headline, two line feeds and the situation
    text, stripped. The town and the four texts that are lower-cased or
    stripped are ASCII text, on which [lower] and [strip] are [str.lower]
    and [str.strip]; the identifier and the issue time are any strings. *)
Theorem fetch_builds_warning (root : Element) (config : Config) (w : world)
    (area ident issue ttl headline situation : string) :
  isascii (town config) = true ->
  isascii area = true -> isascii ttl = true ->
  isascii headline = true -> isascii situation = true ->
  field root path_to_area = Some area ->
  str_in (lower (town config)) (lower area) = true ->
  field root path_to_identifier = Some ident ->
  field root path_to_issue_time = Some issue ->
  field root path_to_title = Some ttl ->
  field root path_to_headline = Some headline ->
  field root path_to_situation = Some situation ->
  fetch_and_parse_warning (serving (Document root)) config w =
  (Return (Some (mkWarning (ident ++ issue) (strip ttl)
                   (strip (headline ++ LF ++ LF ++ situation)))),
   set_conn Closed w).
Proof.
  intros _ _ _ _ _ Ha Hin Hi Hu Ht Hh Hs.
  apply field_some in Ha as (ae & Ea & Ta), Hi as (ie & Ei & Ti),
    Hu as (ue & Eu & Tu), Ht as (te & Et & Tt), Hh as (he & Eh & Th),
    Hs as (se & Es & Ts).
  rewrite fetch_serving. unfold try_except, extract.
  rewrite Ea, Ta, Ei, Eu, Et, Eh, Es. unfold dot_text. py_unfold.
  rewrite Ti, Tu; simpl. rewrite Hin, Tt, Th, Ts. reflexivity.
Qed.

Lemma fetch_builds_warning_witness :
  fetch_and_parse_warning (serving (Document storm)) ipswich initial =
  (Return (Some storm_warning), set_conn Closed initial).
Proof.
  apply (fetch_builds_warning storm ipswich initial
           "People in Ipswich, Logan and parts of Brisbane City."
           "IDQ21037" "2024-01-05T03:10:00Z"
           " Severe Thunderstorm Warning "
           "Damaging winds and large hailstones."
           "A trough is moving east across the region. "); reflexivity.
Defined.

(** A field found without text is rendered by the f-string as the word
    None: the message of a document whose headline element only has
    children. *)
Lemma headline_without_text (root : Element) (config : Config) (w : world)
    (area ident issue ttl situation : string) he :
  field root path_to_area = Some area ->
  str_in (lower (town config)) (lower area) = true ->
  field root path_to_identifier = Some ident ->
  field root path_to_issue_time = Some issue ->
  field root path_to_title = Some ttl ->
  find root path_to_headline = Some he -> text he = None ->
  field root path_to_situation = Some situation ->
  fetch_and_parse_warning (serving (Document root)) config w =
  (Return (Some (mkWarning (ident ++ issue) (strip ttl)
                   (strip ("None" ++ LF ++ LF ++ situation)))),
   set_conn Closed w).
Proof.
  intros Ha Hin Hi Hu Ht Eh Th Hs.
  apply field_some in Ha as (ae & Ea & Ta), Hi as (ie & Ei & Ti),
    Hu as (ue & Eu & Tu), Ht as (te & Et & Tt), Hs as (se & Es & Ts).
  rewrite fetch_serving. unfold try_except, extract.
  rewrite Ea, Ta, Ei, Eu, Et, Eh, Es. unfold dot_text. py_unfold.
  rewrite Ti, Tu; simpl. rewrite Hin, Tt, Th, Ts. reflexivity.
Qed.

End ExtractorFacts.

(* --------------------------------------------------------------------- *)
(** ** Failures of the fetch *)
(* --------------------------------------------------------------------- *)

Section FailureFacts.
Import Text ETree Py Fetch Loop Observe Samples.

(** C2, as the code has it. Every failure of class [Exception] inside the
    fetch is turned into the same returned value [None], and none is
    raised to the caller; a permanent FTP reply ([ftplib.error_perm], the
    absent file) differs from the other failures only in that it prints
    nothing, while each of the others prints one diagnostic line. *)
Theorem fetch_failures_return_none (srv : server) (config : Config)
    (w w1 : world) (x : exn) :
  fetch_body srv config w = (Raise x, w1) ->
  is_Exception x = true ->
  fetch_and_parse_warning srv config w = (Return None, logged x w1) /\
  (x = error_perm -> logged x w1 = w1) /\
  (x <> error_perm -> logged x w1 = emit (PrintCheckError x) w1).
Proof.
  intros H Hx. split; [now apply fetch_handles|].
  unfold logged. split.
  - intros ->. reflexivity.
  - intros Hne. destruct x; try reflexivity. congruence.
Qed.

Lemma fetch_failures_return_none_witness :
  fetch_and_parse_warning server_timeout ipswich initial =
  (Return None, emit (PrintCheckError NetworkFailure) initial).
Proof.
  destruct (fetch_failures_return_none server_timeout ipswich initial initial
              NetworkFailure eq_refl eq_refl) as (H & _ & Hlog).
  rewrite H. rewrite Hlog; [reflexivity | discriminate].
Defined.

(** C2, refuted as stated: the absent file and a connection time-out are
    different failures of the session, and the caller is returned the
    same value for both. *)
Lemma not_found_returned_like_timeout :
  fst (fetch_body server_not_found ipswich initial) = Raise error_perm /\
  fst (fetch_body server_timeout ipswich initial) = Raise NetworkFailure /\
  fst (fetch_and_parse_warning server_not_found ipswich initial) =
  fst (fetch_and_parse_warning server_timeout ipswich initial).
Proof. repeat split. Qed.

(** When the download and QUIT succeed, the connection is closed at the
    return of the fetch, whatever the document. *)
Lemma fetch_closes_after_quit (srv : server) (config : Config) (w : world) f :
  on_connect srv = Ok tt -> on_login srv = Ok tt -> on_cwd srv = Ok tt ->
  on_retr srv (warning_file config) = Ok f -> on_quit srv = Ok tt ->
  conn (snd (fetch_and_parse_warning srv config w)) = Closed.
Proof.
  intros Hc Hl Hd Hr Hq.
  unfold fetch_and_parse_warning, try_except, fetch_body,
    FTP, login, cwd, retrbinary, quit, parse.
  py_unfold. rewrite Hc, Hl, Hd, Hr, Hq; simpl.
  destruct f as [|root]; simpl; [reflexivity|].
  pose proof (extract_pure root config (set_conn Closed (set_conn Open w))) as H.
  destruct (extract root config _) as [[r|x] w']; simpl in *; subst w';
    [reflexivity|].
  destruct x; reflexivity.
Qed.

(** C3, where it fails. When the connection is made and logged in and
    RETR then raises (a permanent error for an absent warning file, or
    any other [Exception]), [ftp.quit()] on line 137 is skipped: the
    fetch returns [None] with the connection it opened still open. *)
Theorem fetch_failure_leaves_connection_open (srv : server) (config : Config)
    (w : world) (x : exn) :
  on_connect srv = Ok tt -> on_login srv = Ok tt -> on_cwd srv = Ok tt ->
  on_retr srv (warning_file config) = Err x ->
  is_Exception x = true ->
  fst (fetch_and_parse_warning srv config w) = Return None /\
  conn (snd (fetch_and_parse_warning srv config w)) = Open.
Proof.
  intros Hc Hl Hd Hr Hx.
  assert (Hb : fetch_body srv config w = (Raise x, set_conn Open w)).
  { unfold fetch_body, FTP, login, cwd, retrbinary. py_unfold.
    now rewrite Hc, Hl, Hd, Hr. }
  rewrite (fetch_handles _ _ _ _ _ Hb Hx). unfold logged.
  destruct x; simpl; auto.
Qed.

Lemma fetch_failure_leaves_connection_open_witness :
  fetch_and_parse_warning server_not_found ipswich initial =
  (Return None, set_conn Open initial) /\
  conn (snd (fetch_and_parse_warning server_not_found ipswich initial)) = Open.
Proof.
  destruct (fetch_failure_leaves_connection_open server_not_found ipswich
              initial error_perm eq_refl eq_refl eq_refl eq_refl eq_refl)
    as (_ & Hopen).
  split; [reflexivity | exact Hopen].
Defined.

End FailureFacts.

(* --------------------------------------------------------------------- *)
(** ** One iteration of the loop *)
(* --------------------------------------------------------------------- *)

Section LoopFacts.
Import Text Severity ETree Py Fetch Loop Observe Samples.

(** The three ways [display_alert] ends. *)
Lemma display_alert_all_clear (u : ui) (a : Warning) (w : world) :
  determine_severity (title a) = AllClear ->
  display_alert u a w = (Return tt, emit (DisplayAlert a) w).
Proof. intros H. unfold display_alert. py_unfold. now rewrite H. Qed.

Lemma display_alert_dismissed (a : Warning) (w : world) :
  determine_severity (title a) <> AllClear ->
  display_alert Dismissed a w =
  (Return tt,
   emit (Window (title a) (message a) (determine_severity (title a)))
     (emit (DisplayAlert a) w)).
Proof.
  intros H. unfold display_alert. py_unfold.
  destruct (determine_severity (title a)); first [congruence | reflexivity].
Qed.

Lemma display_alert_fails (x : exn) (a : Warning) (w : world) :
  determine_severity (title a) <> AllClear ->
  display_alert (Fails x) a w = (Raise x, emit (DisplayAlert a) w).
Proof.
  intros H. unfold display_alert. py_unfold.
  destruct (determine_severity (title a)); first [congruence | reflexivity].
Qed.

(** Whatever happens, [display_alert] records its call, leaves the tracker
    alone, and adds at most the window to the trace. *)
Lemma display_alert_frame (u : ui) (a : Warning) (w : world) :
  let w2 := snd (display_alert u a w) in
  processed_warning_id w2 = processed_warning_id w /\
  display_calls (trace w2) = (display_calls (trace w) ++ [a])%list /\
  (determine_severity (title a) = AllClear -> windows (trace w2) = windows (trace w)).
Proof.
  unfold display_alert, show_window. py_unfold.
  destruct (determine_severity (title a)) eqn:Hs, u; simpl;
    rewrite ?display_calls_app, ?windows_app; simpl;
    rewrite ?app_nil_r, ?Nat.add_0_r;
    (split; [reflexivity | split; [reflexivity | intros; congruence]]).
Qed.

(** The iteration after a fetch that found no warning. *)
Lemma iteration_none (config : Config) (e : env) (w w1 : world) :
  fetch_and_parse_warning (srv e) config w = (Return None, w1) ->
  iteration config e w =
  (Return Continue, emit (Sleep 300) (set_processed None w1)).
Proof.
  intros H. unfold iteration, loop_body, try_except, bind.
  rewrite H. reflexivity.
Qed.

(** The iteration after a fetch that found the warning already recorded. *)
Lemma iteration_known (config : Config) (e : env) (w w1 : world) (a : Warning) :
  fetch_and_parse_warning (srv e) config w = (Return (Some a), w1) ->
  differs (id a) (processed_warning_id w) = false ->
  iteration config e w = (Return Continue, emit (Sleep 300) w1).
Proof.
  intros H Hd. destruct (fetch_frame _ _ _ _ _ H) as (Hp & _).
  unfold iteration, loop_body, try_except, bind, read.
  rewrite H; simpl. rewrite Hp, Hd. reflexivity.
Qed.

(** The iteration after a fetch that found a warning not yet recorded, by
    the way [display_alert] ends. *)
Lemma iteration_novel (config : Config) (e : env) (w w1 : world) (a : Warning) :
  fetch_and_parse_warning (srv e) config w = (Return (Some a), w1) ->
  differs (id a) (processed_warning_id w) = true ->
  iteration config e w =
  match display_alert (gui e) a w1 with
  | (Return _, w2) =>
      (Return Continue, emit (Sleep 300) (set_processed (Some (id a)) w2))
  | (Raise KeyboardInterrupt, w2) => (Return Break, w2)
  | (Raise x, w2) =>
      (Return Continue, emit (Sleep 300) (emit (PrintCriticalError x) w2))
  end.
Proof.
  intros H Hd. destruct (fetch_frame _ _ _ _ _ H) as (Hp & _).
  unfold iteration, loop_body, try_except, bind, read.
  rewrite H; simpl. rewrite Hp, Hd.
  destruct (display_alert (gui e) a w1) as [[[]|x] w2]; simpl; [reflexivity|].
  destruct x; reflexivity.
Qed.

(** A novel warning is handed to [display_alert] exactly once in the
    iteration, however the presentation ends. *)
Lemma iteration_novel_calls (config : Config) (e : env) (w w1 : world) (a : Warning) :
  fetch_and_parse_warning (srv e) config w = (Return (Some a), w1) ->
  differs (id a) (processed_warning_id w) = true ->
  display_calls (trace (snd (iteration config e w))) =
  (display_calls (trace w) ++ [a])%list.
Proof.
  intros H Hd. rewrite (iteration_novel _ _ _ _ _ H Hd).
  destruct (fetch_frame _ _ _ _ _ H) as (_ & Hc & _).
  destruct (display_alert_frame (gui e) a w1) as (_ & Hc2 & _).
  simpl in Hc2. rewrite Hc in Hc2.
  destruct (display_alert (gui e) a w1) as [[[]|x] w2]; simpl in *.
  - rewrite display_calls_app; simpl. now rewrite app_nil_r.
  - destruct x; simpl; rewrite ?display_calls_app; simpl;
      rewrite ?app_nil_r; assumption.
Qed.

(** The loop refines the tracker of the specification: when the
    presentation returns, the recorded identity after the iteration and
    the calls of [display_alert] are those [observe] prescribes. *)
Lemma iteration_refines_observe (config : Config) (e : env) (w w1 : world)
    (current : option Warning) :
  fetch_and_parse_warning (srv e) config w = (Return current, w1) ->
  (forall a, current = Some a -> fst (display_alert (gui e) a w1) = Return tt) ->
  let after := snd (iteration config e w) in
  let (isNovel, newLastNotified) := observe current (processed_warning_id w) in
  processed_warning_id after = newLastNotified /\
  display_calls (trace after) =
  (display_calls (trace w) ++
   match current with
   | Some a => if isNovel then [a] else []
   | None => []
   end)%list.
Proof.
  intros H Hret. destruct (fetch_frame _ _ _ _ _ H) as (Hp & Hc & _).
  destruct current as [a|]; simpl.
  - destruct (differs (id a) (processed_warning_id w)) eqn:Hd.
    + split; [|now apply (iteration_novel_calls _ _ _ _ _ H Hd)].
      rewrite (iteration_novel _ _ _ _ _ H Hd).
      specialize (Hret a eq_refl).
      destruct (display_alert_frame (gui e) a w1) as (Hp2 & _).
      destruct (display_alert (gui e) a w1) as [[[]|x] w2]; simpl in *;
        [reflexivity | discriminate].
    + rewrite (iteration_known _ _ _ _ _ H Hd); simpl.
      rewrite display_calls_app, app_nil_r; simpl. rewrite app_nil_r. now split.
  - rewrite (iteration_none _ _ _ _ H); simpl.
    rewrite display_calls_app; simpl. rewrite !app_nil_r. now split.
Qed.

End LoopFacts.

(* --------------------------------------------------------------------- *)
(** ** The tracker across iterations *)
(* --------------------------------------------------------------------- *)

Section TrackerFacts.
Import Text Severity ETree Py Fetch Loop Observe Samples.

(** C1, as the code has it. When the body of the fetch fails with any
    [Exception] (a network failure as much as an absent file), the fetch
    hands [None] to the loop, and the iteration runs to its end like one
    that found no warning: the recorded identity is reset to [None],
    [display_alert] is not called, and the loop sleeps and goes on. *)
Theorem failed_fetch_resets_tracker (config : Config) (e : env)
    (w w1 : world) (x : exn) :
  fetch_body (srv e) config w = (Raise x, w1) ->
  is_Exception x = true ->
  let after := snd (iteration config e w) in
  iteration config e w =
    (Return Continue, emit (Sleep 300) (set_processed None (logged x w1))) /\
  processed_warning_id after = None /\
  display_calls (trace after) = display_calls (trace w) /\
  windows (trace after) = windows (trace w).
Proof.
  intros H Hx after.
  pose proof (fetch_handles _ _ _ _ _ H Hx) as Hf.
  destruct (fetch_frame _ _ _ _ _ Hf) as (_ & Hc & Hw).
  pose proof (iteration_none _ _ _ _ Hf) as Hi.
  subst after. rewrite Hi; simpl.
  rewrite display_calls_app, windows_app; simpl.
  rewrite app_nil_r, Nat.add_0_r. auto.
Qed.

Lemma failed_fetch_resets_tracker_witness :
  iteration ipswich (mkEnv server_timeout Dismissed) notified =
    (Return Continue,
     emit (Sleep 300)
       (set_processed None (emit (PrintCheckError NetworkFailure) notified))) /\
  processed_warning_id
    (snd (iteration ipswich (mkEnv server_timeout Dismissed) notified)) = None.
Proof.
  destruct (failed_fetch_resets_tracker ipswich (mkEnv server_timeout Dismissed)
              notified notified NetworkFailure eq_refl eq_refl)
    as (H1 & H2 & _).
  split; [exact H1 | exact H2].
Defined.

(** C1, refuted as stated: the loop has notified a warning, the next
    connection attempt times out, and the recorded identity is lost. *)
Lemma timeout_forgets_notified_warning :
  fst (fetch_body server_timeout ipswich notified) = Raise NetworkFailure /\
  processed_warning_id notified = Some (id storm_warning) /\
  processed_warning_id
    (snd (iteration ipswich (mkEnv server_timeout Dismissed) notified))
  <> processed_warning_id notified.
Proof. repeat split. discriminate. Qed.

(** C7. A fetched warning whose id is the recorded one is not novel: the
    iteration only sleeps, [display_alert] is not called and the recorded
    identity stays. Hence, of two consecutive iterations that fetch the
    same warning, the first one presenting it without failure, the second
    one never calls [display_alert]. *)
Theorem same_warning_not_renotified (config : Config) (a : Warning) :
  (forall e w w1,
      fetch_and_parse_warning (srv e) config w = (Return (Some a), w1) ->
      processed_warning_id w = Some (id a) ->
      let after := snd (iteration config e w) in
      iteration config e w = (Return Continue, emit (Sleep 300) w1) /\
      processed_warning_id after = processed_warning_id w /\
      display_calls (trace after) = display_calls (trace w) /\
      windows (trace after) = windows (trace w) /\
      observe (Some a) (processed_warning_id w) = (false, processed_warning_id w)) /\
  (forall e1 e2 w w1 w2,
      fetch_and_parse_warning (srv e1) config w = (Return (Some a), w1) ->
      fst (display_alert (gui e1) a w1) = Return tt ->
      let between := snd (iteration config e1 w) in
      fetch_and_parse_warning (srv e2) config between = (Return (Some a), w2) ->
      let after := snd (iteration config e2 between) in
      processed_warning_id between = Some (id a) /\
      processed_warning_id after = Some (id a) /\
      display_calls (trace after) = display_calls (trace between) /\
      windows (trace after) = windows (trace between)).
Proof.
  assert (Hone : forall e w w1,
      fetch_and_parse_warning (srv e) config w = (Return (Some a), w1) ->
      processed_warning_id w = Some (id a) ->
      iteration config e w = (Return Continue, emit (Sleep 300) w1) /\
      processed_warning_id (snd (iteration config e w)) = processed_warning_id w /\
      display_calls (trace (snd (iteration config e w))) = display_calls (trace w) /\
      windows (trace (snd (iteration config e w))) = windows (trace w) /\
      observe (Some a) (processed_warning_id w) = (false, processed_warning_id w)).
  { intros e w w1 H Hp.
    assert (Hd : differs (id a) (processed_warning_id w) = false)
      by (rewrite Hp; apply differs_same).
    destruct (fetch_frame _ _ _ _ _ H) as (Hp1 & Hc & Hw).
    rewrite (iteration_known _ _ _ _ _ H Hd); simpl.
    rewrite display_calls_app, windows_app, Hd; simpl.
    rewrite app_nil_r, Nat.add_0_r. auto. }
  split; [exact Hone|].
  intros e1 e2 w w1 w2 H1 Hret between H2 after.
  assert (Hb : processed_warning_id between = Some (id a)).
  { pose proof (iteration_refines_observe config e1 w w1 (Some a) H1) as R.
    simpl in R.
    destruct (differs (id a) (processed_warning_id w)) eqn:Hd.
    - apply R. now intros ? [= <-].
    - destruct R as [R _]; [now intros ? [= <-]|].
      subst between. rewrite R.
      destruct (processed_warning_id w) as [q|]; simpl in Hd; [|discriminate].
      apply negb_false_iff, String.eqb_eq in Hd. now subst q. }
  destruct (Hone e2 between w2 H2 Hb) as (_ & Hp & Hc & Hw & _).
  subst after. rewrite Hp. auto.
Qed.

Lemma same_warning_not_renotified_witness :
  let e := mkEnv (serving (Document storm)) Dismissed in
  let between := snd (iteration ipswich e initial) in
  let after := snd (iteration ipswich e between) in
  processed_warning_id after = Some (id storm_warning) /\
  display_calls (trace after) = display_calls (trace between) /\
  iteration ipswich e notified = (Return Continue, emit (Sleep 300) notified).
Proof.
  destruct (same_warning_not_renotified ipswich storm_warning) as [H1 H2].
  set (e := mkEnv (serving (Document storm)) Dismissed).
  destruct (H2 e e initial (set_conn Closed initial)
              (set_conn Closed (snd (iteration ipswich e initial)))
              eq_refl eq_refl eq_refl) as (_ & Hp & Hc & _).
  destruct (H1 e notified notified eq_refl eq_refl) as (Hi & _).
  repeat split; assumption.
Defined.

(** C8. Whatever identity is recorded, an iteration whose fetch finds no
    warning calls no [display_alert] and leaves [None] recorded; and in
    the iteration after it a fetched warning is novel, whatever its id
    (the one recorded before the reset included): [display_alert] is
    called with it. *)
Theorem reset_then_fresh (config : Config) (e1 e2 : env) (w w1 w2 : world)
    (a : Warning) :
  fetch_and_parse_warning (srv e1) config w = (Return None, w1) ->
  let between := snd (iteration config e1 w) in
  fetch_and_parse_warning (srv e2) config between = (Return (Some a), w2) ->
  let after := snd (iteration config e2 between) in
  (observe None (processed_warning_id w) = (false, None) /\
   processed_warning_id between = None /\
   display_calls (trace between) = display_calls (trace w) /\
   windows (trace between) = windows (trace w)) /\
  (observe (Some a) None = (true, Some (id a)) /\
   display_calls (trace after) = (display_calls (trace between) ++ [a])%list /\
   (fst (display_alert (gui e2) a w2) = Return tt ->
    processed_warning_id after = Some (id a))).
Proof.
  intros H1 between H2 after.
  destruct (fetch_frame _ _ _ _ _ H1) as (_ & Hc1 & Hw1).
  assert (Hb : between = emit (Sleep 300) (set_processed None w1))
    by (subst between; now rewrite (iteration_none _ _ _ _ H1)).
  assert (Hp : processed_warning_id between = None) by now rewrite Hb.
  assert (Hd : differs (id a) (processed_warning_id between) = true)
    by now rewrite Hp.
  split.
  - rewrite Hb; simpl. rewrite display_calls_app, windows_app; simpl.
    rewrite app_nil_r, Nat.add_0_r. auto.
  - split; [reflexivity|]. split.
    + apply (iteration_novel_calls _ _ _ _ _ H2 Hd).
    + intros Hret. subst after.
      rewrite (iteration_novel _ _ _ _ _ H2 Hd).
      destruct (display_alert (gui e2) a w2) as [[[]|x] w3]; simpl in *;
        [reflexivity | discriminate].
Qed.

Lemma reset_then_fresh_witness :
  let e1 := mkEnv server_not_found Dismissed in
  let e2 := mkEnv (serving (Document storm)) Dismissed in
  let between := snd (iteration ipswich e1 notified) in
  let after := snd (iteration ipswich e2 between) in
  processed_warning_id notified = Some (id storm_warning) /\
  processed_warning_id between = None /\
  display_calls (trace after) = [storm_warning] /\
  processed_warning_id after = Some (id storm_warning).
Proof.
  set (e1 := mkEnv server_not_found Dismissed).
  set (e2 := mkEnv (serving (Document storm)) Dismissed).
  destruct (reset_then_fresh ipswich e1 e2 notified (set_conn Open notified)
              (set_conn Closed (snd (iteration ipswich e1 notified)))
              storm_warning eq_refl eq_refl)
    as ((_ & Hp & _) & (_ & Hc & Hs)).
  split; [reflexivity|]. split; [exact Hp|]. split; [exact Hc|].
  apply Hs. reflexivity.
Defined.

(** The iteration for a novel warning with an AllClear title. *)
Lemma iteration_all_clear (config : Config) (e : env) (w w1 : world)
    (a : Warning) :
  fetch_and_parse_warning (srv e) config w = (Return (Some a), w1) ->
  differs (id a) (processed_warning_id w) = true ->
  determine_severity (title a) = AllClear ->
  iteration config e w =
    (Return Continue,
     emit (Sleep 300) (set_processed (Some (id a)) (emit (DisplayAlert a) w1))) /\
  windows (trace (snd (iteration config e w))) = windows (trace w).
Proof.
  intros H Hd Hs.
  destruct (fetch_frame _ _ _ _ _ H) as (_ & _ & Hw).
  pose proof (iteration_novel _ _ _ _ _ H Hd) as Hi.
  rewrite (display_alert_all_clear (gui e) a w1 Hs) in Hi.
  rewrite Hi; simpl. rewrite !windows_app; simpl. rewrite !Nat.add_0_r. auto.
Qed.

(** C9. A novel warning whose title classifies as AllClear is handed to
    [display_alert], which returns before making the window: the
    iteration shows no window, whatever the toolkit would do, and
    records the warning. *)
Theorem all_clear_shows_no_window (config : Config) (e : env) (w w1 : world)
    (a : Warning) :
  fetch_and_parse_warning (srv e) config w = (Return (Some a), w1) ->
  differs (id a) (processed_warning_id w) = true ->
  determine_severity (title a) = AllClear ->
  let after := snd (iteration config e w) in
  iteration config e w =
    (Return Continue,
     emit (Sleep 300) (set_processed (Some (id a)) (emit (DisplayAlert a) w1))) /\
  windows (trace after) = windows (trace w) /\
  display_calls (trace after) = (display_calls (trace w) ++ [a])%list.
Proof.
  intros H Hd Hs after.
  destruct (iteration_all_clear _ _ _ _ _ H Hd Hs) as (Hi & Hw).
  pose proof (iteration_novel_calls _ _ _ _ _ H Hd) as Hc.
  subst after. auto.
Qed.

Lemma all_clear_shows_no_window_witness :
  let e := mkEnv (serving (Document storm_cancelled)) Dismissed in
  let after := snd (iteration ipswich e notified) in
  determine_severity (title cancelled_warning) = AllClear /\
  windows (trace after) = 0 /\
  display_calls (trace after) = [cancelled_warning].
Proof.
  set (e := mkEnv (serving (Document storm_cancelled)) Dismissed).
  destruct (all_clear_shows_no_window ipswich e notified notified
              cancelled_warning eq_refl eq_refl eq_refl) as (_ & Hw & Hc).
  split; [reflexivity|]. split; [exact Hw | exact Hc].
Defined.

(** C10. In an iteration that fetched a novel warning, the recorded
    identity becomes the new id exactly when [display_alert] returns: an
    AllClear title returns without a window and is recorded; when the
    presentation raises, the recorded identity is as before, and a later
    iteration fetching the same warning calls [display_alert] with it
    again (and shows the window when the toolkit then works). *)
Theorem recorded_iff_display_returns (config : Config) (e : env) (w w1 : world)
    (a : Warning) :
  fetch_and_parse_warning (srv e) config w = (Return (Some a), w1) ->
  differs (id a) (processed_warning_id w) = true ->
  let shown := fst (display_alert (gui e) a w1) in
  let after := snd (iteration config e w) in
  (processed_warning_id after = Some (id a) <-> shown = Return tt) /\
  (determine_severity (title a) = AllClear ->
   shown = Return tt /\ processed_warning_id after = Some (id a) /\
   windows (trace after) = windows (trace w)) /\
  (forall x, shown = Raise x ->
     processed_warning_id after = processed_warning_id w /\
     forall e2 w2,
       fetch_and_parse_warning (srv e2) config after = (Return (Some a), w2) ->
       let later := snd (iteration config e2 after) in
       display_calls (trace later) = (display_calls (trace after) ++ [a])%list /\
       (gui e2 = Dismissed -> determine_severity (title a) <> AllClear ->
        windows (trace later) = S (windows (trace after)) /\
        processed_warning_id later = Some (id a))).
Proof.
  intros H Hd shown after.
  destruct (fetch_frame _ _ _ _ _ H) as (Hp1 & _ & _).
  destruct (display_alert_frame (gui e) a w1) as (Hp2 & _ & _); simpl in Hp2.
  pose proof (iteration_novel _ _ _ _ _ H Hd) as Hi.
  assert (Hraise : forall x, shown = Raise x ->
            processed_warning_id after = processed_warning_id w).
  { intros x Hx. subst shown after. rewrite Hi.
    destruct (display_alert (gui e) a w1) as [[[]|y] w2]; simpl in *;
      [discriminate|].
    injection Hx as ->. destruct x; simpl; congruence. }
  assert (Hreturn : shown = Return tt -> processed_warning_id after = Some (id a)).
  { intros Hx. subst shown after. rewrite Hi.
    destruct (display_alert (gui e) a w1) as [[[]|y] w2]; simpl in *;
      [reflexivity | discriminate]. }
  split; [split|split].
  - intros Hafter. destruct shown as [[]|x] eqn:Hx; [reflexivity|].
    rewrite (Hraise x eq_refl) in Hafter.
    apply differs_true in Hd. contradiction.
  - exact Hreturn.
  - intros Hs.
    destruct (iteration_all_clear config e w w1 a H Hd Hs) as (_ & Hw).
    assert (Hx : shown = Return tt)
      by (subst shown; now rewrite (display_alert_all_clear _ _ _ Hs)).
    auto.
  - intros x Hx. split; [now apply (Hraise x)|].
    intros e2 w2 H2 later.
    assert (Hd2 : differs (id a) (processed_warning_id after) = true)
      by now rewrite (Hraise x Hx).
    split; [apply (iteration_novel_calls _ _ _ _ _ H2 Hd2)|].
    intros Hg Hs. subst later.
    destruct (fetch_frame _ _ _ _ _ H2) as (_ & _ & Hw2).
    rewrite (iteration_novel _ _ _ _ _ H2 Hd2), Hg,
      (display_alert_dismissed a w2 Hs); simpl.
    rewrite !windows_app, Hw2; simpl. split; [lia | reflexivity].
Qed.

Lemma recorded_iff_display_returns_witness :
  let e := mkEnv (serving (Document storm)) (Fails TclError) in
  let e2 := mkEnv (serving (Document storm)) Dismissed in
  let after := snd (iteration ipswich e initial) in
  let later := snd (iteration ipswich e2 after) in
  processed_warning_id after = None /\
  display_calls (trace later) = [storm_warning; storm_warning] /\
  windows (trace later) = 1 /\
  processed_warning_id later = Some (id storm_warning).
Proof.
  set (e := mkEnv (serving (Document storm)) (Fails TclError)).
  set (e2 := mkEnv (serving (Document storm)) Dismissed).
  destruct (recorded_iff_display_returns ipswich e initial
              (set_conn Closed initial) storm_warning eq_refl eq_refl)
    as (_ & _ & Hraise).
  destruct (Hraise TclError eq_refl) as (Hp & Hlater).
  destruct (Hlater e2 (set_conn Closed (snd (iteration ipswich e initial)))
              eq_refl) as (Hc & Hw).
  destruct (Hw eq_refl) as (Hw1 & Hp2); [discriminate|].
  repeat split; assumption.
Defined.

(** The loop of the specification's scenario C, then a time-out, a
    toolkit failure and a cancellation: five iterations from the start. *)
Example main_loop_run :
  let storm_env := mkEnv (serving (Document storm)) Dismissed in
  let w := snd (main_loop ipswich
                  [ storm_env; storm_env;
                    mkEnv server_timeout Dismissed;
                    mkEnv (serving (Document storm)) (Fails TclError);
                    mkEnv (serving (Document storm_cancelled)) Dismissed ]) in
  display_calls (trace w) = [storm_warning; storm_warning; cancelled_warning] /\
  windows (trace w) = 1 /\
  processed_warning_id w = Some (id cancelled_warning).
Proof. repeat split. Qed.

End TrackerFacts.

(* ===================================================================== *)
(** * Further properties of the code *)
(* ===================================================================== *)

(* --------------------------------------------------------------------- *)
(** ** Letter case and white space *)
(* --------------------------------------------------------------------- *)

Section CaseFacts.
Import Text Severity Accounting.

Lemma lower_ascii_idempotent (c : ascii) : lower_ascii (lower_ascii c) = lower_ascii c.
Proof. destruct c as [[] [] [] [] [] [] [] []]; reflexivity. Qed.

Lemma lower_idempotent (s : string) : lower (lower s) = lower s.
Proof.
  induction s as [|c s IH]; simpl; [reflexivity|].
  now rewrite lower_ascii_idempotent, IH.
Qed.

(** A split of the lower-cased string is the image of a split of the
    string. *)
Lemma lower_split (s a b : string) :
  lower s = a ++ b -> exists s1 s2, s = s1 ++ s2 /\ lower s1 = a /\ lower s2 = b.
Proof.
  revert s; induction a as [|c a IH]; intros s H; simpl in *.
  - exists EmptyString, s. auto.
  - destruct s as [|d s]; simpl in H; [discriminate|].
    injection H as Hc Hs.
    destruct (IH _ Hs) as (s1 & s2 & -> & H1 & H2).
    exists (String d s1), s2. simpl. rewrite Hc, H1. auto.
Qed.

(** The test of [determine_severity], [kw in title.lower()], holds
    exactly of the titles that have an occurrence of the keyword written
    in some letter case. *)
Lemma str_in_lower_mentions (kw title : string) :
  str_in kw (lower title) = true <-> mentions kw title.
Proof.
  rewrite str_in_iff. unfold mentions. split.
  - intros (pre' & post' & H).
    apply lower_split in H as (pre & rest & -> & Hpre & H).
    apply lower_split in H as (mid & post & -> & Hmid & Hpost).
    now exists pre, mid, post.
  - intros (pre & mid & post & -> & Hmid).
    exists (lower pre), (lower post). now rewrite !lower_app, Hmid.
Qed.

Lemma str_in_lower_mentions_false (kw title : string) :
  str_in kw (lower title) = false <-> ~ mentions kw title.
Proof.
  rewrite <- str_in_lower_mentions.
  destruct (str_in kw (lower title)); split; congruence.
Qed.

(** X1. Which titles get which tier, in terms of the keywords a title
    mentions in any letter case: AllClear needs "cancellation" only;
    Deadly needs "tornado" or "destructive" and no "cancellation"; Major
    needs "severe" or "fire" and none of the former; Minor needs "strong
    wind" or "hazardous surf" and none of the former; Default is the
    tier of exactly the titles that mention no keyword at all. *)
Theorem tier_by_keywords (title : string) :
  let m kw := mentions kw title in
  (determine_severity title = AllClear <-> m "cancellation") /\
  (determine_severity title = Deadly <->
     ~ m "cancellation" /\ (m "tornado" \/ m "destructive")) /\
  (determine_severity title = Major <->
     ~ m "cancellation" /\ ~ m "tornado" /\ ~ m "destructive" /\
     (m "severe" \/ m "fire")) /\
  (determine_severity title = Minor <->
     ~ m "cancellation" /\ ~ m "tornado" /\ ~ m "destructive" /\
     ~ m "severe" /\ ~ m "fire" /\ (m "strong wind" \/ m "hazardous surf")) /\
  (determine_severity title = Default <->
     ~ m "cancellation" /\ ~ m "tornado" /\ ~ m "destructive" /\
     ~ m "severe" /\ ~ m "fire" /\ ~ m "strong wind" /\ ~ m "hazardous surf").
Proof.
  intros m. unfold m, determine_severity.
  rewrite <- !str_in_lower_mentions_false, <- !str_in_lower_mentions.
  destruct (str_in "cancellation" (lower title));
    destruct (str_in "tornado" (lower title));
    destruct (str_in "destructive" (lower title));
    destruct (str_in "severe" (lower title));
    destruct (str_in "fire" (lower title));
    destruct (str_in "strong wind" (lower title));
    destruct (str_in "hazardous surf" (lower title)); simpl;
    repeat split; intros; try discriminate; try tauto;
    repeat match goal with
           | H : _ /\ _ |- _ => destruct H
           | H : _ \/ _ |- _ => destruct H
           end; congruence.
Qed.

(** X2. The tier does not depend on the letter case of the title: two
    titles with the same lower-casing get the same tier, and so do a
    title and its lower-casing. *)
Theorem severity_ignores_case (t u : string) :
  lower t = lower u ->
  determine_severity t = determine_severity u /\
  determine_severity (lower t) = determine_severity u.
Proof.
  intros H. unfold determine_severity. now rewrite lower_idempotent, H.
Qed.

Lemma severity_ignores_case_witness :
  determine_severity "SEVERE Weather" = determine_severity "Severe weather" /\
  determine_severity (lower "SEVERE Weather") = determine_severity "Severe weather".
Proof. apply (severity_ignores_case "SEVERE Weather" "Severe weather"). reflexivity. Defined.

Lemma lstrip_headspace (s : string) : headspace (lstrip s) = false.
Proof.
  induction s as [|c s IH]; simpl; [reflexivity|].
  destruct (isspace c) eqn:E; [exact IH | simpl; exact E].
Qed.

Lemma lstrip_fixed (s : string) : headspace s = false -> lstrip s = s.
Proof. destruct s as [|c s]; simpl; [reflexivity | now intros ->]. Qed.

Lemma rstrip_headspace (s : string) :
  headspace s = false -> headspace (rstrip s) = false.
Proof.
  destruct s as [|c s]; simpl; [reflexivity|]. intros H.
  destruct (rstrip s); simpl; rewrite ?H; simpl; rewrite ?H; reflexivity.
Qed.

Lemma rstrip_idempotent (s : string) : rstrip (rstrip s) = rstrip s.
Proof.
  induction s as [|c s IH]; simpl; [reflexivity|].
  destruct (rstrip s) as [|d r] eqn:E.
  - destruct (isspace c) eqn:Hc; simpl; [reflexivity | now rewrite Hc].
  - change (rstrip (String c (String d r))) with
      (match rstrip (String d r) with
       | EmptyString => if isspace c then EmptyString else String c EmptyString
       | r' => String c r'
       end).
    now rewrite IH.
Qed.

Lemma strip_idempotent (s : string) : strip (strip s) = strip s.
Proof.
  unfold strip.
  rewrite (lstrip_fixed (rstrip (lstrip s))).
  - apply rstrip_idempotent.
  - apply rstrip_headspace, lstrip_headspace.
Qed.

End CaseFacts.

(* --------------------------------------------------------------------- *)
(** ** The styling table *)
(* --------------------------------------------------------------------- *)

Section StyleFacts.
Import Text Severity Style.

(** X3. Whatever the title, the name [determine_severity] returns is a
    key of [SEVERITY_LEVELS], so the fall-back of line 51 is never used;
    the entry has the "color" and "icon" the window reads, and the colour
    of the text differs from the background. The name is "All Clear",
    the test of line 52, exactly for the AllClear tier. *)
Theorem every_tier_is_styled (title : string) :
  let name := severity_name (determine_severity title) in
  exists config background picture,
    assoc name SEVERITY_LEVELS = Some config /\
    level_config name = Some config /\
    bg config = Some background /\
    icon config = Some picture /\
    fg config <> background /\
    String.eqb name "All Clear" = tier_eqb (determine_severity title) AllClear.
Proof.
  intros name. subst name.
  destruct (determine_severity title); simpl;
    eexists; eexists; eexists;
    (split; [reflexivity|]; split; [reflexivity|]; split; [reflexivity|];
     split; [reflexivity|]; split; [discriminate | reflexivity]).
Qed.

(** Only the Deadly entry sets a text colour; every other window has
    black text. *)
Lemma text_colour (t : tier) (config : list (string * string)) :
  assoc (severity_name t) SEVERITY_LEVELS = Some config ->
  fg config = if tier_eqb t Deadly then "white" else "black".
Proof. destruct t; simpl; intros [= <-]; reflexivity. Qed.

End StyleFacts.

(* --------------------------------------------------------------------- *)
(** ** What a returned warning tells *)
(* --------------------------------------------------------------------- *)

Section ReturnedFacts.
Import Text ETree Py Fetch Loop Observe Accounting Samples.

Lemma bind_return_inv {A B} (m : M A) (k : A -> M B) (w w2 : world) (b : B) :
  bind m k w = (Return b, w2) ->
  exists a w1, m w = (Return a, w1) /\ k a w1 = (Return b, w2).
Proof.
  unfold bind. destruct (m w) as [[a|x] w1]; [|discriminate].
  intros H. now exists a, w1.
Qed.

Lemma dot_text_inv (x : option Element) (w w1 : world) (t : option string) :
  dot_text x w = (Return t, w1) -> exists e, x = Some e /\ text e = t /\ w1 = w.
Proof.
  destruct x as [e|]; simpl; [|discriminate].
  unfold ret. intros [= <- <-]. now exists e.
Qed.

(** A warning comes out of the extraction only the way lines 153-162
    build it. *)
Lemma extract_some_inv (root : Element) (config : Config) (w w1 : world)
    (a : Warning) :
  extract root config w = (Return (Some a), w1) ->
  exists area ident issue ttl he se,
    field root path_to_area = Some area /\
    str_in (lower (town config)) (lower area) = true /\
    field root path_to_identifier = Some ident /\
    field root path_to_issue_time = Some issue /\
    field root path_to_title = Some ttl /\
    find root path_to_headline = Some he /\
    find root path_to_situation = Some se /\
    a = mkWarning (ident ++ issue) (strip ttl)
          (strip (fmt (text he) ++ LF ++ LF ++ fmt (text se))) /\
    w1 = w.
Proof.
  unfold extract, field.
  destruct (find root path_to_area) as [ae|]; [|discriminate].
  destruct (text ae) as [area|] eqn:Ta; [|discriminate].
  intros H.
  apply bind_return_inv in H as (ident & wa & Hi & H).
  apply dot_text_inv in Hi as (ie & Ei & Ti & ->).
  apply bind_return_inv in H as (issue & wb & Hu & H).
  apply dot_text_inv in Hu as (ue & Eu & Tu & ->).
  apply bind_return_inv in H as (wid & wc & Hadd & H).
  destruct ident as [ident|], issue as [issue|]; try discriminate.
  unfold add, ret in Hadd. injection Hadd as <- <-.
  destruct (str_in (lower (town config)) (lower area)) eqn:Hin; [|discriminate].
  apply bind_return_inv in H as (ttl & wd & Ht & H).
  apply dot_text_inv in Ht as (te & Et & Tt & ->).
  apply bind_return_inv in H as (hl & we & Hh & H).
  apply dot_text_inv in Hh as (he & Eh & Th & ->).
  apply bind_return_inv in H as (si & wf & Hs & H).
  apply dot_text_inv in Hs as (se & Es & Ts & ->).
  apply bind_return_inv in H as (st & wg & Hst & H).
  destruct ttl as [ttl|]; [|discriminate].
  unfold dot_strip, ret in Hst, H. injection Hst as <- <-. injection H as <- <-.
  exists area, ident, issue, ttl, he, se.
  subst hl si. rewrite Ei, Eu, Et, Ti, Tu, Tt.
  repeat split; first [reflexivity | assumption].
Qed.

(** A warning comes out of the fetch only after a session in which every
    call succeeded. *)
Lemma fetch_some_inv (srv : server) (config : Config) (w w1 : world)
    (a : Warning) :
  fetch_and_parse_warning srv config w = (Return (Some a), w1) ->
  exists root,
    on_connect srv = Ok tt /\ on_login srv = Ok tt /\ on_cwd srv = Ok tt /\
    on_retr srv (warning_file config) = Ok (Document root) /\
    on_quit srv = Ok tt /\
    extract root config (set_conn Closed w) = (Return (Some a), set_conn Closed w) /\
    w1 = set_conn Closed w.
Proof.
  unfold fetch_and_parse_warning, try_except, fetch_body,
    FTP, login, cwd, retrbinary, quit, parse.
  py_unfold.
  destruct (on_connect srv) as [[]|x1]; simpl;
    [|destruct x1; simpl; discriminate].
  destruct (on_login srv) as [[]|x2]; simpl;
    [|destruct x2; simpl; discriminate].
  destruct (on_cwd srv) as [[]|x3]; simpl;
    [|destruct x3; simpl; discriminate].
  destruct (on_retr srv (warning_file config)) as [f|x4]; simpl;
    [|destruct x4; simpl; discriminate].
  destruct (on_quit srv) as [[]|x5]; simpl;
    [|destruct x5; simpl; discriminate].
  destruct f as [|root]; simpl; [discriminate|].
  pose proof (extract_pure root config (set_conn Closed (set_conn Open w))) as Hp.
  change (set_conn Closed (set_conn Open w)) with (set_conn Closed w) in *.
  destruct (extract root config (set_conn Closed w)) as [[r|x] w'] eqn:E;
    simpl in *; subst w'.
  - intros [= -> <-]. exists root. repeat split; first [reflexivity | assumption].
  - destruct x; simpl; discriminate.
Qed.

(** X4. No false alert, for ASCII text: when the town is ASCII and the
    served document has ASCII text in the fields the extraction
    lower-cases or strips, a warning returned by the fetch means that
    the file parsed, that the area summary of the document contains the
    configured town (letter case ignored), that the warning is built from
    the fields of that document, that nothing was printed, and that the
    connection is closed. *)
Theorem returned_warning_is_genuine (srv : server) (config : Config)
    (w w1 : world) (a : Warning) :
  isascii (town config) = true ->
  (forall root, on_retr srv (warning_file config) = Ok (Document root) ->
                ascii_fields root = true) ->
  fetch_and_parse_warning srv config w = (Return (Some a), w1) ->
  exists root area ident issue ttl,
    on_retr srv (warning_file config) = Ok (Document root) /\
    field root path_to_area = Some area /\
    str_in (lower (town config)) (lower area) = true /\
    field root path_to_identifier = Some ident /\
    field root path_to_issue_time = Some issue /\
    field root path_to_title = Some ttl /\
    id a = ident ++ issue /\ title a = strip ttl /\
    trace w1 = trace w /\ conn w1 = Closed.
Proof.
  intros _ _ H.
  apply fetch_some_inv in H as (root & _ & _ & _ & Hr & _ & He & ->).
  apply extract_some_inv in He
    as (area & ident & issue & ttl & he & se & Ha & Hin & Hi & Hu & Ht & _ & _ & -> & _).
  exists root, area, ident, issue, ttl. repeat split; assumption.
Qed.

Lemma returned_warning_is_genuine_witness :
  exists root area ident issue ttl,
    on_retr (serving (Document storm)) (warning_file ipswich) = Ok (Document root) /\
    field root path_to_area = Some area /\
    str_in (lower (town ipswich)) (lower area) = true /\
    field root path_to_identifier = Some ident /\
    field root path_to_issue_time = Some issue /\
    field root path_to_title = Some ttl /\
    id storm_warning = ident ++ issue /\ title storm_warning = strip ttl /\
    trace (set_conn Closed initial) = trace initial /\
    conn (set_conn Closed initial) = Closed.
Proof.
  apply (returned_warning_is_genuine (serving (Document storm)) ipswich
           initial (set_conn Closed initial) storm_warning).
  - reflexivity.
  - intros root [= <-]. reflexivity.
  - reflexivity.
Defined.

(** X5. The title and the message of a returned warning never begin or
    end with white space, whatever the server sent. *)
Theorem returned_warning_is_trimmed (srv : server) (config : Config)
    (w w1 : world) (a : Warning) :
  fetch_and_parse_warning srv config w = (Return (Some a), w1) ->
  trimmed (title a) /\ trimmed (message a).
Proof.
  intros H.
  apply fetch_some_inv in H as (root & _ & _ & _ & _ & _ & He & _).
  apply extract_some_inv in He
    as (area & ident & issue & ttl & he & se & _ & _ & _ & _ & _ & _ & _ & -> & _).
  unfold trimmed; simpl. split; apply strip_idempotent.
Qed.

Lemma returned_warning_is_trimmed_witness :
  trimmed (title storm_warning) /\ trimmed (message storm_warning).
Proof.
  apply (returned_warning_is_trimmed (serving (Document storm)) ipswich
           initial (set_conn Closed initial) storm_warning).
  reflexivity.
Defined.

End ReturnedFacts.

(* --------------------------------------------------------------------- *)
(** ** What the paths select *)
(* --------------------------------------------------------------------- *)

Section PathFacts.
Import Text ETree Py Fetch Observe Samples.

Lemma value_is_true (v : string) (x : option string) :
  value_is v x = true <-> x = Some v.
Proof.
  destruct x as [y|]; simpl.
  - rewrite String.eqb_eq. split; congruence.
  - split; discriminate.
Qed.

(** The elements a path of the shape ".//t[@k='v']/c" selects. *)
Lemma iterfind_section_child (root : Element) (t k v c : string) (e : Element) :
  In e (iterfind root [Self; Descendant t; AttrEq k v; Child c]) <->
  exists parent,
    In parent (tl (iter root)) /\ tag parent = t /\ get parent k = Some v /\
    In e (children parent) /\ tag e = c.
Proof.
  unfold iterfind; simpl. rewrite app_nil_r, in_flat_map. split.
  - intros (parent & Hp & He).
    apply filter_In in Hp as (Hp & Hv), He as (He & Hc).
    apply filter_In in Hp as (Hp & Ht).
    apply value_is_true in Hv. apply String.eqb_eq in Ht, Hc.
    now exists parent.
  - intros (parent & Hp & Ht & Hv & He & Hc). exists parent.
    rewrite !filter_In. unfold has_tag.
    rewrite (proj2 (value_is_true v _) Hv), Ht, Hc, !String.eqb_refl. auto.
Qed.

(** X6. A path of the shape of [path_to_area], [path_to_title] and
    [path_to_situation] finds a [c] child of an element tagged [t] whose
    attribute [k] is [v] and which lies strictly below the root; it finds
    nothing exactly when the document has no such child. The root itself
    is never the section, and a paragraph deeper than a direct child does
    not count. *)
Theorem find_section_child (root : Element) (t k v c : string) :
  (forall e,
      find root [Self; Descendant t; AttrEq k v; Child c] = Some e ->
      exists parent,
        In parent (tl (iter root)) /\ tag parent = t /\ get parent k = Some v /\
        In e (children parent) /\ tag e = c) /\
  (find root [Self; Descendant t; AttrEq k v; Child c] = None <->
   forall parent e,
     In parent (tl (iter root)) -> tag parent = t -> get parent k = Some v ->
     In e (children parent) -> tag e <> c).
Proof.
  unfold find. split.
  - intros e H. apply iterfind_section_child.
    destruct (iterfind root _) as [|x l]; simpl in H; [discriminate|].
    injection H as ->. now left.
  - split.
    + intros H parent e Hp Ht Hv He Hc.
      assert (Hin : In e (iterfind root [Self; Descendant t; AttrEq k v; Child c]))
        by (apply iterfind_section_child; now exists parent).
      destruct (iterfind root _); [contradiction | discriminate].
    + intros H.
      destruct (iterfind root [Self; Descendant t; AttrEq k v; Child c])
        as [|x l] eqn:E; [reflexivity|].
      assert (Hin : In x (iterfind root [Self; Descendant t; AttrEq k v; Child c]))
        by (rewrite E; now left).
      apply iterfind_section_child in Hin as (parent & Hp & Ht & Hv & He & Hc).
      exfalso. exact (H parent x Hp Ht Hv He Hc).
Qed.

End PathFacts.

(* --------------------------------------------------------------------- *)
(** ** More on the failures of the fetch *)
(* --------------------------------------------------------------------- *)

Section EscapeFacts.
Import Text ETree Py Fetch Loop Observe Accounting Samples.

Lemma bind_raise_inv {A B} (m : M A) (k : A -> M B) (w w2 : world) (x : exn) :
  bind m k w = (Raise x, w2) ->
  m w = (Raise x, w2) \/
  exists a w1, m w = (Return a, w1) /\ k a w1 = (Raise x, w2).
Proof.
  unfold bind. destruct (m w) as [[a|y] w1]; intros H.
  - right. now exists a, w1.
  - left. injection H as -> ->. reflexivity.
Qed.

Lemma dot_text_raises (o : option Element) (w w1 : world) (x : exn) :
  dot_text o w = (Raise x, w1) -> x = AttributeError.
Proof. destruct o; simpl; unfold ret, raise; congruence. Qed.

(** The extraction raises nothing but the two errors of a missing field. *)
Lemma extract_raises (root : Element) (config : Config) (w w1 : world) (x : exn) :
  extract root config w = (Raise x, w1) -> x = AttributeError \/ x = TypeError.
Proof.
  unfold extract.
  destruct (find root path_to_area) as [ae|]; [|discriminate].
  destruct (text ae) as [area|]; [|discriminate].
  intros H.
  apply bind_raise_inv in H as [H | (ident & wa & _ & H)];
    [left; eapply dot_text_raises; eassumption|].
  apply bind_raise_inv in H as [H | (issue & wb & _ & H)];
    [left; eapply dot_text_raises; eassumption|].
  apply bind_raise_inv in H as [H | (wid & wc & _ & H)].
  { right. destruct ident, issue; simpl in H; unfold ret, raise in H; congruence. }
  destruct (str_in _ _); [|discriminate].
  apply bind_raise_inv in H as [H | (ttl & wd & _ & H)];
    [left; eapply dot_text_raises; eassumption|].
  apply bind_raise_inv in H as [H | (hl & we & _ & H)];
    [left; eapply dot_text_raises; eassumption|].
  apply bind_raise_inv in H as [H | (si & wf & _ & H)];
    [left; eapply dot_text_raises; eassumption|].
  apply bind_raise_inv in H as [H | (st & wg & _ & H)]; [|discriminate].
  left. destruct ttl; simpl in H; unfold ret, raise in H; congruence.
Qed.

(** A [KeyboardInterrupt] in the body of the fetch is the answer to one
    of the five calls on the connection. *)
Lemma fetch_body_interrupt (srv : server) (config : Config) (w w1 : world) :
  fetch_body srv config w = (Raise KeyboardInterrupt, w1) ->
  is_interrupt (on_connect srv) || is_interrupt (on_login srv) ||
  is_interrupt (on_cwd srv) ||
  is_interrupt (on_retr srv (warning_file config)) ||
  is_interrupt (on_quit srv) = true.
Proof.
  unfold fetch_body, FTP, login, cwd, retrbinary, quit, parse. py_unfold.
  destruct (on_connect srv) as [[]|x1]; simpl;
    [|intros [= -> _]; reflexivity].
  destruct (on_login srv) as [[]|x2]; simpl;
    [|intros [= -> _]; reflexivity].
  destruct (on_cwd srv) as [[]|x3]; simpl;
    [|intros [= -> _]; reflexivity].
  destruct (on_retr srv (warning_file config)) as [f|x4]; simpl;
    [|intros [= -> _]; reflexivity].
  destruct (on_quit srv) as [[]|x5]; simpl;
    [|intros [= -> _]; reflexivity].
  destruct f as [|root]; simpl; [discriminate|].
  intros H. apply extract_raises in H as [H | H]; discriminate.
Qed.




(** The fetch for a document with every field, as lines 153-162 build it. *)
Lemma fetch_of_fields (root : Element) (config : Config) (w : world)
    (area ident issue ttl headline situation : string) :
  field root path_to_area = Some area ->
  str_in (lower (town config)) (lower area) = true ->
  field root path_to_identifier = Some ident ->
  field root path_to_issue_time = Some issue ->
  field root path_to_title = Some ttl ->
  field root path_to_headline = Some headline ->
  field root path_to_situation = Some situation ->
  fetch_and_parse_warning (serving (Document root)) config w =
  (Return (Some (mkWarning (ident ++ issue) (strip ttl)
                   (strip (headline ++ LF ++ LF ++ situation)))),
   set_conn Closed w).
Proof.
  intros Ha Hin Hi Hu Ht Hh Hs.
  apply field_some in Ha as (ae & Ea & Ta), Hi as (ie & Ei & Ti),
    Hu as (ue & Eu & Tu), Ht as (te & Et & Tt), Hh as (he & Eh & Th),
    Hs as (se & Es & Ts).
  rewrite fetch_serving. unfold try_except, extract.
  rewrite Ea, Ta, Ei, Eu, Et, Eh, Es. unfold dot_text. py_unfold.
  rewrite Ti, Tu; simpl. rewrite Hin, Tt, Th, Ts. reflexivity.
Qed.

Lemma str_in_empty (s : string) : str_in EmptyString s = true.
Proof. destruct s; reflexivity. Qed.

(** X8. The empty town is in every area summary: a configuration whose
    town is the empty string gets the warning of every document that has
    the six fields, whatever area the bulletin names (title, headline
    and situation being ASCII text, on which [strip] is [str.strip]). *)
Theorem empty_town_matches_everywhere (root : Element) (config : Config)
    (w : world) (area ident issue ttl headline situation : string) :
  isascii ttl = true -> isascii headline = true -> isascii situation = true ->
  town config = EmptyString ->
  field root path_to_area = Some area ->
  field root path_to_identifier = Some ident ->
  field root path_to_issue_time = Some issue ->
  field root path_to_title = Some ttl ->
  field root path_to_headline = Some headline ->
  field root path_to_situation = Some situation ->
  fst (fetch_and_parse_warning (serving (Document root)) config w) =
  Return (Some (mkWarning (ident ++ issue) (strip ttl)
                  (strip (headline ++ LF ++ LF ++ situation)))).
Proof.
  intros _ _ _ Ht Ha Hi Hu Htt Hh Hs.
  rewrite (fetch_of_fields root config w area ident issue ttl headline situation);
    try assumption; [reflexivity|].
  rewrite Ht. apply str_in_empty.
Qed.

Lemma empty_town_matches_everywhere_witness :
  fst (fetch_and_parse_warning (serving (Document storm))
         (mkConfig "Western Australia" EmptyString "IDW21037.xml") initial) =
  Return (Some storm_warning).
Proof.
  apply (empty_town_matches_everywhere storm
           (mkConfig "Western Australia" EmptyString "IDW21037.xml") initial
           "People in Ipswich, Logan and parts of Brisbane City."
           "IDQ21037" "2024-01-05T03:10:00Z"
           " Severe Thunderstorm Warning "
           "Damaging winds and large hailstones."
           "A trough is moving east across the region. "); reflexivity.
Defined.

(** X9. When the download succeeds and the QUIT that follows it raises,
    the downloaded file is never parsed: the fetch returns [None] even for
    a bulletin that names the town, the connection stays open, and the
    iteration of the loop that made the fetch forgets the recorded
    identity. *)
Theorem failed_quit_discards_download (config : Config) (e : env) (w : world)
    (f : feed_file) (x : exn) :
  on_connect (srv e) = Ok tt -> on_login (srv e) = Ok tt -> on_cwd (srv e) = Ok tt ->
  on_retr (srv e) (warning_file config) = Ok f ->
  on_quit (srv e) = Err x ->
  is_Exception x = true ->
  fetch_and_parse_warning (srv e) config w =
    (Return None, logged x (set_conn Open w)) /\
  conn (snd (fetch_and_parse_warning (srv e) config w)) = Open /\
  processed_warning_id (snd (iteration config e w)) = None.
Proof.
  intros Hc Hl Hd Hr Hq Hx.
  assert (Hb : fetch_body (srv e) config w = (Raise x, set_conn Open w)).
  { unfold fetch_body, FTP, login, cwd, retrbinary, quit. py_unfold.
    now rewrite Hc, Hl, Hd, Hr, Hq. }
  pose proof (fetch_handles _ _ _ _ _ Hb Hx) as Hf.
  rewrite Hf, (iteration_none _ _ _ _ Hf). unfold logged.
  destruct x; simpl; auto.
Qed.

Lemma failed_quit_discards_download_witness :
  let e := mkEnv (mkServer (Ok tt) (Ok tt) (Ok tt) (fun _ => Ok (Document storm))
                    (Err NetworkFailure)) Dismissed in
  fst (fetch_and_parse_warning (srv e) ipswich notified) = Return None /\
  processed_warning_id (snd (iteration ipswich e notified)) = None.
Proof.
  set (e := mkEnv (mkServer (Ok tt) (Ok tt) (Ok tt) (fun _ => Ok (Document storm))
                     (Err NetworkFailure)) Dismissed).
  destruct (failed_quit_discards_download ipswich e notified (Document storm)
              NetworkFailure eq_refl eq_refl eq_refl eq_refl eq_refl eq_refl)
    as (Hf & _ & Hp).
  split; [now rewrite Hf | exact Hp].
Defined.

End EscapeFacts.

(* --------------------------------------------------------------------- *)
(** ** The loop over many iterations *)
(* --------------------------------------------------------------------- *)

Section ManyIterations.
Import Text Severity ETree Py Fetch Loop Observe Accounting Samples.

(** The fetch adds nothing to the trace but at most one printed line. *)
Lemma fetch_trace (srv : server) (config : Config) (w w1 : world) r :
  fetch_and_parse_warning srv config w = (r, w1) ->
  processed_warning_id w1 = processed_warning_id w /\
  (trace w1 = trace w \/ exists x, trace w1 = (trace w ++ [PrintCheckError x])%list).
Proof.
  intros E. destruct (fetch_frame _ _ _ _ _ E) as (Hp & _).
  split; [exact Hp|].
  pose proof (fetch_body_frame srv config w) as [_ Ht]; simpl in Ht.
  unfold fetch_and_parse_warning, try_except in E.
  destruct (fetch_body srv config w) as [[a|y] w'] eqn:B; simpl in Ht, E.
  - injection E as <- <-. now left.
  - destruct y; simpl in E; py_unfold; simpl in E; injection E as <- <-; simpl;
      rewrite ?Ht; eauto.
Qed.

(** The fetch raises nothing but an interrupt of one of its calls. *)
Lemma fetch_raise_inv (srv : server) (config : Config) (w w1 : world) (x : exn) :
  fetch_and_parse_warning srv config w = (Raise x, w1) ->
  x = KeyboardInterrupt /\
  is_interrupt (on_connect srv) || is_interrupt (on_login srv) ||
  is_interrupt (on_cwd srv) ||
  is_interrupt (on_retr srv (warning_file config)) ||
  is_interrupt (on_quit srv) = true.
Proof.
  unfold fetch_and_parse_warning, try_except.
  destruct (fetch_body srv config w) as [[a|y] w'] eqn:B; [discriminate|].
  destruct y; simpl; py_unfold; simpl; try discriminate.
  intros [= <- <-]. split; [reflexivity|]. now apply fetch_body_interrupt in B.
Qed.

(** What [display_alert] adds to the trace. *)
Lemma display_alert_trace (u : ui) (a : Warning) (w : world) :
  let w2 := snd (display_alert u a w) in
  processed_warning_id w2 = processed_warning_id w /\
  (trace w2 = (trace w ++ [DisplayAlert a])%list \/
   trace w2 = (trace w ++ [DisplayAlert a;
                           Window (title a) (message a) (determine_severity (title a))])%list).
Proof.
  unfold display_alert, show_window. py_unfold.
  destruct (determine_severity (title a)), u; simpl;
    rewrite <- ?app_assoc; simpl; auto.
Qed.

Lemma display_alert_interrupt (u : ui) (a : Warning) (w w2 : world) :
  display_alert u a w = (Raise KeyboardInterrupt, w2) -> u = Fails KeyboardInterrupt.
Proof.
  unfold display_alert, show_window. py_unfold.
  destruct (determine_severity (title a)), u; simpl; congruence.
Qed.

(** Every iteration goes one of the six ways. *)
Lemma iteration_cycle (config : Config) (e : env) (w : world) :
  exists c after,
    iteration config e w = (Return c, after) /\ cycle config e w c after.
Proof.
  destruct (fetch_and_parse_warning (srv e) config w) as [[[a|]|x] w1] eqn:F.
  - destruct (differs (id a) (processed_warning_id w)) eqn:Hd.
    + pose proof (iteration_novel _ _ _ _ _ F Hd) as Hi.
      destruct (display_alert (gui e) a w1) as [[[]|y] w2] eqn:D.
      * eexists; eexists; split; [exact Hi | eapply cycle_shown; eassumption].
      * destruct y;
          (eexists; eexists; split; [exact Hi|]);
          first [ eapply cycle_interrupted_alert; eassumption
                | eapply cycle_failed; [eassumption .. | reflexivity] ].
    + eexists; eexists; split;
        [apply (iteration_known _ _ _ _ _ F Hd) | eapply cycle_known; eassumption].
    - eexists; eexists; split;
        [apply (iteration_none _ _ _ _ F) | now apply cycle_none].
    - destruct (fetch_raise_inv _ _ _ _ _ F) as (-> & _).
      exists Break, w1. split; [|now apply cycle_interrupted_fetch].
      unfold iteration, loop_body, try_except, bind. now rewrite F.
Qed.

Lemma slept_app (t u : list event) : slept (t ++ u) = slept t + slept u.
Proof.
  induction t as [|ev t IH]; simpl; [reflexivity|].
  destruct ev; simpl; rewrite IH; lia.
Qed.




(** The seconds slept in one iteration. *)
Lemma cycle_slept (config : Config) (e : env) (w after : world) (c : control) :
  cycle config e w c after ->
  slept (trace after) =
  slept (trace w) + match c with Continue => 300 | Break => 0 end.
Proof.
  intros Hc.
  inversion Hc as [w1 F | a w1 F Hd | a w1 w2 F Hd D | a w1 w2 x F Hd D Hx
                   | a w1 w2 F Hd D | w1 F]; subst; simpl;
    destruct (fetch_trace _ _ _ _ _ F) as (_ & [Ht | (y & Ht)]);
    try (pose proof (display_alert_trace (gui e) a w1) as (_ & Hd2);
         rewrite D in Hd2; simpl in Hd2; destruct Hd2 as [Hd2 | Hd2];
         rewrite ?Hd2);
    rewrite ?slept_app, ?Ht, ?slept_app; simpl; lia.
Qed.

(** X11. The loop sleeps 300 seconds once in every iteration that is not
    interrupted, whether the fetch and the presentation succeeded or
    failed, and not at all in an interrupted one; a run of iterations
    none of which can be interrupted sleeps 300 seconds per iteration. *)
Theorem one_sleep_per_iteration (config : Config) (envs : list env) (w : world) :
  (forall e, In e envs -> interruptible config e = false) ->
  (forall e, In e envs ->
     forall w', slept (trace (snd (iteration config e w'))) = slept (trace w') + 300) /\
  slept (trace (snd (iterations config envs w))) =
  slept (trace w) + 300 * length envs.
Proof.
  intros H.
  assert (Hone : forall e, In e envs -> forall w',
            fst (iteration config e w') = Return Continue /\
            slept (trace (snd (iteration config e w'))) = slept (trace w') + 300).
  { intros e He w'.
    destruct (iteration_cycle config e w') as (c & after & Hi & Hc).
    rewrite Hi; simpl. rewrite (cycle_slept _ _ _ _ _ Hc).
    destruct c; [auto|]. exfalso.
    assert (Hb : interruptible config e = true).
    { unfold interruptible.
      inversion Hc as [| | | | a w1 w2 F Hd D | w1 F]; subst.
      - apply display_alert_interrupt in D. rewrite D. apply orb_true_r.
      - destruct (fetch_raise_inv _ _ _ _ _ F) as (_ & Hr). now rewrite Hr. }
    rewrite (H e He) in Hb. discriminate. }
  split; [intros e He w'; apply (Hone e He)|].
  revert w. induction envs as [|e rest IH]; intros w; simpl; [lia|].
  unfold bind.
  destruct (Hone e (or_introl eq_refl) w) as (Hc & Hs).
  destruct (iteration config e w) as [[c|x] after]; simpl in *; [|discriminate].
  injection Hc as ->.
  rewrite IH.
  - rewrite Hs. lia.
  - intros e' He'. apply H. now right.
  - intros e' He'. apply Hone. now right.
Qed.

Lemma one_sleep_per_iteration_witness :
  let envs := [ mkEnv (serving (Document storm)) Dismissed;
                mkEnv server_timeout Dismissed;
                mkEnv (serving (Document storm)) (Fails TclError) ] in
  slept (trace (snd (iterations ipswich envs initial))) = 900.
Proof.
  intros envs.
  destruct (one_sleep_per_iteration ipswich envs initial) as (_ & H).
  - intros e [<- | [<- | [<- | []]]]; reflexivity.
  - exact H.
Defined.


(** What one iteration does to the calls of [display_alert], the windows
    and the recorded identity: nothing is called and the identity stays
    or is reset, or one warning is handed over, at most one window is
    shown, and the identity stays or becomes that warning's id. *)
Lemma cycle_effect (config : Config) (e : env) (w after : world) (c : control) :
  cycle config e w c after ->
  (display_calls (trace after) = display_calls (trace w) /\
   windows (trace after) = windows (trace w) /\
   (processed_warning_id after = processed_warning_id w \/
    processed_warning_id after = None)) \/
  (exists a,
     display_calls (trace after) = (display_calls (trace w) ++ [a])%list /\
     windows (trace w) <= windows (trace after) <= S (windows (trace w)) /\
     (processed_warning_id after = Some (id a) \/
      processed_warning_id after = processed_warning_id w)).
Proof.
  intros Hc.
  inversion Hc as [w1 F | a w1 F Hd | a w1 w2 F Hd D | a w1 w2 x F Hd D Hx
                   | a w1 w2 F Hd D | w1 F]; subst;
    destruct (fetch_frame _ _ _ _ _ F) as (Hp & Hcalls & Hw).
  - left. simpl. rewrite display_calls_app, windows_app; simpl.
    rewrite app_nil_r, Nat.add_0_r. auto.
  - left. simpl. rewrite display_calls_app, windows_app; simpl.
    rewrite app_nil_r, Nat.add_0_r. auto.
  - right. exists a.
    pose proof (display_alert_trace (gui e) a w1) as (_ & Ht).
    rewrite D in Ht; simpl in Ht. simpl.
    destruct Ht as [Ht | Ht]; rewrite Ht;
      rewrite !display_calls_app, !windows_app, Hcalls, Hw; simpl;
      rewrite !app_nil_r; (split; [reflexivity | split; [lia | auto]]).
  - right. exists a.
    pose proof (display_alert_trace (gui e) a w1) as (Hp2 & Ht).
    rewrite D in Ht, Hp2; simpl in Ht, Hp2. simpl.
    destruct Ht as [Ht | Ht]; rewrite Ht;
      rewrite !display_calls_app, !windows_app, Hcalls, Hw; simpl;
      rewrite !app_nil_r; (split; [reflexivity | split; [lia | right; congruence]]).
  - right. exists a.
    pose proof (display_alert_trace (gui e) a w1) as (Hp2 & Ht).
    rewrite D in Ht, Hp2; simpl in Ht, Hp2.
    destruct Ht as [Ht | Ht]; rewrite Ht;
      rewrite !display_calls_app, !windows_app, Hcalls, Hw; simpl;
      (split; [reflexivity | split; [lia | right; congruence]]).
  - left. auto.
Qed.

(** X12. The recorded identity is never one the user was not told of:
    from the start of [main_loop], after any number of iterations and
    whatever the server and the toolkit did, [processed_warning_id] is
    [None] or the id of a warning [display_alert] has been called with. *)
Theorem recorded_identity_was_displayed (config : Config) (envs : list env) :
  (forall w, recorded_was_displayed w ->
             recorded_was_displayed (snd (iterations config envs w))) /\
  recorded_was_displayed (snd (main_loop config envs)).
Proof.
  assert (Hstep : forall e w c after,
            cycle config e w c after -> recorded_was_displayed w ->
            recorded_was_displayed after).
  { intros e w c after Hc Hw i Hi.
    destruct (cycle_effect _ _ _ _ _ Hc)
      as [(Hcalls & _ & [Hp | Hp]) | (a & Hcalls & _ & [Hp | Hp])];
      rewrite Hcalls; rewrite Hp in Hi.
    - apply Hw, Hi.
    - discriminate.
    - injection Hi as <-. exists a. split; [|reflexivity].
      apply in_or_app. right. now left.
    - destruct (Hw i Hi) as (b & Hb & Hid). exists b. split; [|exact Hid].
      apply in_or_app. now left. }
  assert (Hall : forall w, recorded_was_displayed w ->
                           recorded_was_displayed (snd (iterations config envs w))).
  { induction envs as [|e rest IH]; intros w Hw; [exact Hw|].
    simpl. unfold bind.
    destruct (iteration_cycle config e w) as (c & after & Hi & Hc).
    rewrite Hi. pose proof (Hstep _ _ _ _ Hc Hw) as Ha.
    destruct c; [now apply IH | exact Ha]. }
  split; [exact Hall|].
  apply Hall. intros i Hi. discriminate.
Qed.

Lemma recorded_identity_was_displayed_witness :
  recorded_was_displayed
    (snd (iterations ipswich [mkEnv (serving (Document storm_cancelled)) Dismissed]
            (mkWorld Closed (Some (id storm_warning)) [DisplayAlert storm_warning]))).
Proof.
  destruct (recorded_identity_was_displayed ipswich
              [mkEnv (serving (Document storm_cancelled)) Dismissed]) as (H & _).
  apply H. intros i [= <-]. exists storm_warning. split; [now left | reflexivity].
Defined.

(** X13. From the start of [main_loop], there are never more windows than
    calls of [display_alert], and never more calls than iterations. *)
Theorem at_most_one_alert_per_iteration (config : Config) (envs : list env) :
  let after := snd (main_loop config envs) in
  windows (trace after) <= length (display_calls (trace after)) /\
  length (display_calls (trace after)) <= length envs.
Proof.
  assert (Hall : forall w,
            windows (trace (snd (iterations config envs w)))
              + length (display_calls (trace w))
            <= length (display_calls (trace (snd (iterations config envs w))))
              + windows (trace w) /\
            length (display_calls (trace (snd (iterations config envs w))))
            <= length (display_calls (trace w)) + length envs).
  { induction envs as [|e rest IH]; intros w; simpl; [lia|].
    unfold bind.
    destruct (iteration_cycle config e w) as (c & after & Hi & Hc).
    rewrite Hi.
    assert (Hs : windows (trace after) + length (display_calls (trace w))
                 <= length (display_calls (trace after)) + windows (trace w) /\
                 length (display_calls (trace after))
                 <= S (length (display_calls (trace w)))).
    { destruct (cycle_effect _ _ _ _ _ Hc)
        as [(Hcalls & Hw & _) | (a & Hcalls & Hw & _)];
        rewrite Hcalls, ?length_app; simpl; lia. }
    destruct c; simpl; [|lia].
    specialize (IH after). lia. }
  intros after. subst after. unfold main_loop.
  specialize (Hall initial). simpl in Hall. lia.
Qed.

(** One iteration on a feed that serves the warning [a] and a toolkit
    that presents it. *)
Lemma iteration_serving (config : Config) (e : env) (w : world) (a : Warning) :
  (exists w1, fetch_and_parse_warning (srv e) config w = (Return (Some a), w1) /\
              fst (display_alert (gui e) a w1) = Return tt) ->
  fst (iteration config e w) = Return Continue /\
  processed_warning_id (snd (iteration config e w)) = Some (id a) /\
  display_calls (trace (snd (iteration config e w))) =
  (display_calls (trace w) ++
   if differs (id a) (processed_warning_id w) then [a] else [])%list.
Proof.
  intros (w1 & F & D).
  destruct (fetch_frame _ _ _ _ _ F) as (Hp & Hc & _).
  destruct (differs (id a) (processed_warning_id w)) eqn:Hd.
  - pose proof (iteration_novel_calls _ _ _ _ _ F Hd) as Hcalls.
    rewrite (iteration_novel _ _ _ _ _ F Hd) in *.
    destruct (display_alert (gui e) a w1) as [[[]|x] w2]; simpl in *;
      [auto | discriminate].
  - rewrite (iteration_known _ _ _ _ _ F Hd); simpl.
    rewrite display_calls_app, Hp, Hc; simpl. rewrite !app_nil_r.
    repeat split.
    destruct (processed_warning_id w) as [q|]; simpl in Hd; [|discriminate].
    apply negb_false_iff, String.eqb_eq in Hd. now subst q.
Qed.

(** X14. One notification per warning: over any number of consecutive
    iterations (at least one) in which the fetch returns the same warning
    and the presentation returns, [display_alert] is called with it once
    if it was not the recorded one at the start and not at all if it was;
    at the end it is the recorded one. *)
Theorem unchanged_feed_alerts_once (config : Config) (envs : list env)
    (w : world) (a : Warning) :
  envs <> [] ->
  (forall e, In e envs -> forall w',
     exists w1, fetch_and_parse_warning (srv e) config w' = (Return (Some a), w1) /\
                fst (display_alert (gui e) a w1) = Return tt) ->
  let after := snd (iterations config envs w) in
  processed_warning_id after = Some (id a) /\
  display_calls (trace after) =
  (display_calls (trace w) ++
   if differs (id a) (processed_warning_id w) then [a] else [])%list.
Proof.
  intros Hne H after. subst after.
  revert w Hne. induction envs as [|e rest IH]; intros w Hne; [congruence|].
  simpl. unfold bind.
  destruct (iteration_serving config e w a (H e (or_introl eq_refl) w))
    as (Hc & Hp & Hcalls).
  destruct (iteration config e w) as [[c|x] w'] eqn:Hi; simpl in *; [|discriminate].
  injection Hc as ->.
  destruct rest as [|e2 rest'].
  - simpl. auto.
  - destruct (IH (fun e' He' => H e' (or_intror He')) w') as (Hp2 & Hc2);
      [discriminate|].
    split; [exact Hp2|].
    rewrite Hc2, Hcalls, Hp, differs_same, app_nil_r. reflexivity.
Qed.

Lemma unchanged_feed_alerts_once_witness :
  let e := mkEnv (serving (Document storm)) Dismissed in
  let after := snd (iterations ipswich [e; e; e; e] initial) in
  processed_warning_id after = Some (id storm_warning) /\
  display_calls (trace after) = [storm_warning].
Proof.
  intros e.
  apply (unchanged_feed_alerts_once ipswich [e; e; e; e] initial storm_warning).
  - discriminate.
  - intros e' He' w'. exists (set_conn Closed w').
    destruct He' as [<- | [<- | [<- | [<- | []]]]]; split; reflexivity.
Defined.

End ManyIterations.

(* --------------------------------------------------------------------- *)
(** ** First-time setup and the start of the program *)
(* --------------------------------------------------------------------- *)

Section SetupFacts.
Import Text Py Style Setup.

Lemma state_loop_eq (user_state : string) (answers : list (option string)) :
  state_loop user_state answers =
  if in_STATE_MAP user_state then ([], Answered user_state answers)
  else
    match answers with
    | [] => ([ask_state], NoAnswer)
    | None :: _ => ([ask_state; setup_cancelled], Cancelled)
    | Some s :: rest =>
        let (shown, r) := state_loop s rest in
        (ask_state ::
         ((if in_STATE_MAP s then [] else [invalid_state s]) ++ shown)%list, r)
    end.
Proof. destruct answers; reflexivity. Qed.

Lemma town_loop_eq (user_town : string) (answers : list (option string)) :
  town_loop user_town answers =
  if nonempty user_town then ([], Answered user_town answers)
  else
    match answers with
    | [] => ([ask_town], NoAnswer)
    | None :: _ => ([ask_town; setup_cancelled], Cancelled)
    | Some t :: rest =>
        if nonempty (strip t) then
          let (shown, r) := town_loop t rest in (ask_town :: shown, r)
        else
          let (shown, r) := town_loop EmptyString rest in
          (ask_town :: invalid_town :: shown, r)
    end.
Proof. destruct answers; reflexivity. Qed.

Lemma nonempty_true (s : string) : nonempty s = true <-> s <> EmptyString.
Proof.
  unfold nonempty. rewrite negb_true_iff. apply String.eqb_neq.
Qed.

(** A string with something left after stripping is not empty. *)
Lemma nonempty_strip (t : string) : nonempty (strip t) = true -> nonempty t = true.
Proof. destruct t; [discriminate | reflexivity]. Qed.

(** The state loop is left only with a key of [STATE_MAP]. *)
Lemma state_loop_answered (answers : list (option string)) :
  forall user_state shown s rest,
    state_loop user_state answers = (shown, Answered s rest) ->
    in_STATE_MAP s = true.
Proof.
  induction answers as [|ans answers IH]; intros u shown s rest;
    rewrite state_loop_eq; destruct (in_STATE_MAP u) eqn:Hu;
    try (intros [= _ <- _]; exact Hu); try discriminate.
  destruct ans as [s'|]; [|discriminate].
  destruct (state_loop s' answers) as [sh r] eqn:E.
  intros [= _ ->]. exact (IH _ _ _ _ E).
Qed.

(** The town loop is left only with an answer that is not blank. *)
Lemma town_loop_answered (answers : list (option string)) :
  forall user_town shown t rest,
    town_loop user_town answers = (shown, Answered t rest) ->
    (nonempty user_town = true /\ t = user_town) \/ nonempty (strip t) = true.
Proof.
  induction answers as [|ans answers IH]; intros u shown t rest;
    rewrite town_loop_eq; destruct (nonempty u) eqn:Hu;
    try (intros [= _ <- _]; left; now split); try discriminate.
  destruct ans as [t'|]; [|discriminate].
  destruct (nonempty (strip t')) eqn:Ht.
  - destruct (town_loop t' answers) as [sh r] eqn:E.
    intros [= _ ->].
    destruct (IH _ _ _ _ E) as [(_ & ->) | H]; right; assumption.
  - destruct (town_loop EmptyString answers) as [sh r] eqn:E.
    intros [= _ ->].
    destruct (IH _ _ _ _ E) as [(H & _) | H]; [discriminate | now right].
Qed.

(** Looking at how the setup ended. *)
Lemma setup_returned_inv (answers : list (option string)) (disk disk' : fs)
    (shown : list dialog) (config : json) :
  run_first_time_setup answers disk = (shown, disk', Returned config) ->
  (config = JNull /\ disk' = disk) \/
  exists user_state user_town file_name,
    in_STATE_MAP user_state = true /\
    assoc user_state STATE_MAP = Some file_name /\
    nonempty (strip user_town) = true /\
    config = config_data (mkConfig user_state (strip user_town) file_name) /\
    read_only disk = false /\
    disk' = mkFs (Json config) false.
Proof.
  unfold run_first_time_setup.
  destruct (state_loop EmptyString answers) as [sh1 [| |user_state rest]] eqn:E1;
    [discriminate | intros [= _ <- <-]; now left |].
  destruct (town_loop EmptyString rest) as [sh2 [| |user_town rest2]] eqn:E2;
    [discriminate | intros [= _ <- <-]; now left |].
  pose proof (state_loop_answered _ _ _ _ _ E1) as Hs.
  destruct (town_loop_answered _ _ _ _ _ E2) as [(Hn & _) | Ht]; [discriminate|].
  destruct (assoc user_state STATE_MAP) as [file_name|] eqn:Ef; [|discriminate].
  unfold save_config. destruct (read_only disk) eqn:Hr; [discriminate|].
  intros [= _ <- <-]. right. exists user_state, user_town, file_name.
  repeat split; assumption.
Qed.

(** The state loop is left with the first answer that is a key of
    [STATE_MAP]. *)
Lemma state_loop_inv (answers : list (option string)) :
  forall user_state shown s rest,
    in_STATE_MAP user_state = false ->
    state_loop user_state answers = (shown, Answered s rest) ->
    exists bad,
      answers = (map Some bad ++ Some s :: rest)%list /\
      (forall b, In b bad -> in_STATE_MAP b = false) /\
      in_STATE_MAP s = true.
Proof.
  induction answers as [|ans answers IH]; intros u shown s rest Hu;
    rewrite state_loop_eq, Hu; [discriminate|].
  destruct ans as [s'|]; [|discriminate].
  destruct (in_STATE_MAP s') eqn:Hs'.
  - rewrite state_loop_eq, Hs'. intros [= _ <- <-].
    exists []. simpl. repeat split; [contradiction | exact Hs'].
  - destruct (state_loop s' answers) as [sh r] eqn:E. intros [= _ ->].
    destruct (IH _ _ _ _ Hs' E) as (bad & -> & Hbad & Hs).
    exists (s' :: bad). simpl. repeat split; [|exact Hs].
    intros b [<- | Hb]; [exact Hs' | now apply Hbad].
Qed.

(** The town loop is left with the first answer that is not blank. *)
Lemma town_loop_inv (answers : list (option string)) :
  forall shown t rest,
    town_loop EmptyString answers = (shown, Answered t rest) ->
    exists blanks,
      answers = (map Some blanks ++ Some t :: rest)%list /\
      (forall b, In b blanks -> nonempty (strip b) = false) /\
      nonempty (strip t) = true.
Proof.
  induction answers as [|ans answers IH]; intros shown t rest;
    rewrite town_loop_eq; simpl; [discriminate|].
  destruct ans as [t'|]; [|discriminate].
  destruct (nonempty (strip t')) eqn:Ht'.
  - rewrite town_loop_eq, (nonempty_strip t' Ht'). intros [= _ <- <-].
    exists []. simpl. repeat split; [contradiction | exact Ht'].
  - destruct (town_loop EmptyString answers) as [sh r]. intros [= _ ->].
    destruct (IH _ _ _ eq_refl) as (blanks & -> & Hb & Ht).
    exists (t' :: blanks). simpl. repeat split; [|exact Ht].
    intros b [<- | Hin]; [exact Ht' | now apply Hb].
Qed.

(** X15. A configuration that comes out of the first-time setup is the
    one the answers name: its state is the first answer that is a key of
    [STATE_MAP], its warning file is the file of that state, its town is
    the first answer after it that is not blank, stripped, and so is not
    empty and has no white space at its ends; the same dictionary has
    been written to the configuration file. The answers are ASCII text,
    on which [strip] is [str.strip]. *)
Theorem setup_returns_valid_config (answers : list (option string))
    (disk disk' : fs) (shown : list dialog) (config : json) :
  (forall t, In (Some t) answers -> isascii t = true) ->
  run_first_time_setup answers disk = (shown, disk', Returned config) ->
  config <> JNull ->
  exists bad chosen blanks t rest c,
    answers = (map Some bad ++ Some chosen :: map Some blanks ++ Some t :: rest)%list /\
    (forall s, In s bad -> in_STATE_MAP s = false) /\
    (forall b, In b blanks -> nonempty (strip b) = false) /\
    state c = chosen /\ town c = strip t /\
    assoc chosen STATE_MAP = Some (warning_file c) /\
    town c <> EmptyString /\ strip (town c) = town c /\
    config = config_data c /\
    as_Config config = Some c /\
    load_config disk' = Value config.
Proof.
  intros _. unfold run_first_time_setup.
  destruct (state_loop EmptyString answers) as [sh1 [| |chosen rest1]] eqn:E1;
    [discriminate | intros [= _ _ <-]; congruence |].
  destruct (town_loop EmptyString rest1) as [sh2 [| |t rest]] eqn:E2;
    [discriminate | intros [= _ _ <-]; congruence |].
  destruct (state_loop_inv answers EmptyString _ _ _ eq_refl E1)
    as (bad & -> & Hbad & Hs).
  destruct (town_loop_inv _ _ _ _ E2) as (blanks & -> & Hblank & Ht).
  destruct (assoc chosen STATE_MAP) as [file_name|] eqn:Ef; [|discriminate].
  unfold save_config. destruct (read_only disk) eqn:Hr; [discriminate|].
  intros [= _ <- <-] _.
  exists bad, chosen, blanks, t, rest, (mkConfig chosen (strip t) file_name).
  simpl. repeat split; try assumption; try reflexivity.
  - now apply nonempty_true.
  - apply strip_idempotent.
Qed.

Lemma setup_returns_valid_config_witness :
  exists bad chosen blanks t rest c,
    [Some "queensland"; Some "Queensland"; Some "  "; Some " Ipswich "] =
    (map Some bad ++ Some chosen :: map Some blanks ++ Some t :: rest)%list /\
    (forall s, In s bad -> in_STATE_MAP s = false) /\
    (forall b, In b blanks -> nonempty (strip b) = false) /\
    state c = chosen /\ town c = strip t /\
    assoc chosen STATE_MAP = Some (warning_file c) /\
    town c <> EmptyString /\ strip (town c) = town c /\
    config_data (mkConfig "Queensland" "Ipswich" "IDQ21037.xml") = config_data c /\
    as_Config (config_data (mkConfig "Queensland" "Ipswich" "IDQ21037.xml")) = Some c /\
    load_config
      (mkFs (Json (config_data (mkConfig "Queensland" "Ipswich" "IDQ21037.xml"))) false)
    = Value (config_data (mkConfig "Queensland" "Ipswich" "IDQ21037.xml")).
Proof.
  apply (setup_returns_valid_config
           [Some "queensland"; Some "Queensland"; Some "  "; Some " Ipswich "]
           (mkFs Absent false) _
           ([ask_state; invalid_state "queensland"; ask_state; ask_town;
             invalid_town; ask_town; setup_complete " Ipswich " "Queensland"])).
  - intros t [[= <-] | [[= <-] | [[= <-] | [[= <-] | []]]]]; reflexivity.
  - reflexivity.
  - discriminate.
Defined.



(** The state loop steps over the names that are no key of [STATE_MAP]. *)
Lemma state_loop_skips (bad : list string) (chosen : string)
    (rest : list (option string)) :
  (forall s, In s bad -> in_STATE_MAP s = false) ->
  in_STATE_MAP chosen = true ->
  forall user_state,
    in_STATE_MAP user_state = false ->
    state_loop user_state (map Some bad ++ Some chosen :: rest) =
    ((flat_map (fun s => [ask_state; invalid_state s]) bad ++ [ask_state])%list,
     Answered chosen rest).
Proof.
  intros Hbad Hc.
  induction bad as [|s bad IH]; intros u Hu; rewrite state_loop_eq, Hu; simpl.
  - rewrite state_loop_eq, Hc. reflexivity.
  - rewrite (Hbad s (or_introl eq_refl)).
    rewrite (IH (fun s' Hs' => Hbad s' (or_intror Hs')) s
               (Hbad s (or_introl eq_refl))).
    reflexivity.
Qed.

(** The town loop steps over the blank answers. *)
Lemma town_loop_skips (blanks : list string) (t : string)
    (rest : list (option string)) :
  (forall b, In b blanks -> nonempty (strip b) = false) ->
  nonempty (strip t) = true ->
  town_loop EmptyString (map Some blanks ++ Some t :: rest) =
  ((flat_map (fun _ => [ask_town; invalid_town]) blanks ++ [ask_town])%list,
   Answered t rest).
Proof.
  intros Hb Ht.
  induction blanks as [|b blanks IH]; rewrite town_loop_eq; simpl.
  - rewrite Ht, town_loop_eq, (nonempty_strip t Ht). reflexivity.
  - rewrite (Hb b (or_introl eq_refl)).
    rewrite (IH (fun b' Hb' => Hb b' (or_intror Hb'))). reflexivity.
Qed.

(** X17. Wrong answers only cost a warning each: whatever names that are
    no key of [STATE_MAP] (the keys in another letter case included) are
    typed before a valid state, and whatever blank answers before a town
    that is not blank, the setup ends as if only the two valid answers
    had been given; it shows one "Invalid State" or "Invalid Town" box
    per wrong answer and saves the stripped town with the file of the
    state. The answers to the town dialog are ASCII text, on which
    [strip] is [str.strip]. *)
Theorem setup_steps_over_wrong_answers (bad blanks : list string)
    (chosen t file_name : string) (rest : list (option string)) (disk : fs) :
  (forall s, In s bad -> in_STATE_MAP s = false) ->
  assoc chosen STATE_MAP = Some file_name ->
  (forall b, In b blanks -> isascii b = true /\ nonempty (strip b) = false) ->
  isascii t = true ->
  nonempty (strip t) = true ->
  read_only disk = false ->
  let data := config_data (mkConfig chosen (strip t) file_name) in
  run_first_time_setup
    (map Some bad ++ Some chosen :: map Some blanks ++ Some t :: rest) disk =
  ((flat_map (fun s => [ask_state; invalid_state s]) bad ++ [ask_state] ++
    flat_map (fun _ => [ask_town; invalid_town]) blanks ++ [ask_town] ++
    [setup_complete t chosen])%list,
   mkFs (Json data) false,
   Returned data).
Proof.
  intros Hbad Hf Hblank _ Ht Hr data. unfold run_first_time_setup.
  assert (Hc : in_STATE_MAP chosen = true) by (unfold in_STATE_MAP; now rewrite Hf).
  rewrite (state_loop_skips bad chosen _ Hbad Hc EmptyString eq_refl).
  rewrite (town_loop_skips blanks t rest (fun b Hb => proj2 (Hblank b Hb)) Ht).
  rewrite Hf. unfold save_config. rewrite Hr.
  rewrite <- !app_assoc. reflexivity.
Qed.

Lemma setup_steps_over_wrong_answers_witness :
  run_first_time_setup
    [Some "queensland"; Some "QLD"; Some "Queensland"; Some "  "; Some " Ipswich "]
    (mkFs NotJson false) =
  ([ask_state; invalid_state "queensland"; ask_state; invalid_state "QLD";
    ask_state; ask_town; invalid_town; ask_town;
    setup_complete " Ipswich " "Queensland"],
   mkFs (Json (config_data (mkConfig "Queensland" "Ipswich" "IDQ21037.xml"))) false,
   Returned (config_data (mkConfig "Queensland" "Ipswich" "IDQ21037.xml"))).
Proof.
  apply (setup_steps_over_wrong_answers ["queensland"; "QLD"] ["  "]
           "Queensland" " Ipswich " "IDQ21037.xml" [] (mkFs NotJson false)).
  - intros s [<- | [<- | []]]; reflexivity.
  - reflexivity.
  - intros b [<- | []]; split; reflexivity.
  - reflexivity.
  - reflexivity.
  - reflexivity.
Defined.

(** X18. A stored configuration is taken as it is. When the file holds a
    JSON value other than null: a value that is false as a condition (an
    empty object, list or string, zero, false) makes the program exit
    with the message of a cancelled setup, without any dialog; an object
    with the keys "town" and "warning_file" starts the monitoring with
    these values, whatever they are, without any dialog; any other value
    ends the program with an uncaught [KeyError] or [TypeError]. The
    file is never touched. *)
Theorem stored_config_is_not_validated (answers : list (option string))
    (disk : fs) (v : json) :
  config_json disk = Json v ->
  v <> JNull ->
  (truthy v = false ->
   program answers disk = ([PrintCancelled], disk, Exited)) /\
  (truthy v = true ->
   forall t f,
     subscript v "town" = Value t -> subscript v "warning_file" = Value f ->
     program answers disk =
     ([PrintStarting; PrintMonitoring t f; PrintHowToStop], disk, Monitoring v)) /\
  (truthy v = true ->
   forall e,
     subscript v "town" = Uncaught e \/
     (exists t, subscript v "town" = Value t) /\
     subscript v "warning_file" = Uncaught e ->
     program answers disk = ([PrintStarting], disk, Crashed e)).
Proof.
  intros Hf Hn. unfold program, load_config. rewrite Hf.
  split; [|split].
  - intros Ht. destruct v; try congruence; unfold launch; now rewrite Ht.
  - intros Ht t f Ht1 Hf1.
    destruct v; try congruence; unfold launch; now rewrite Ht, Ht1, Hf1.
  - intros Ht e [He | ((t & Ht1) & He)];
      destruct v; try congruence; unfold launch; rewrite Ht, ?Ht1, He; reflexivity.
Qed.

Lemma stored_config_is_not_validated_witness :
  program [Some "Victoria"] (mkFs (Json (JObj [])) false) =
    ([PrintCancelled], mkFs (Json (JObj [])) false, Exited) /\
  program [] (mkFs (Json (JObj [("town", JStr EmptyString);
                                ("warning_file", JNum 7)])) true) =
    ([PrintStarting; PrintMonitoring (JStr EmptyString) (JNum 7); PrintHowToStop],
     mkFs (Json (JObj [("town", JStr EmptyString); ("warning_file", JNum 7)])) true,
     Monitoring (JObj [("town", JStr EmptyString); ("warning_file", JNum 7)])) /\
  program [] (mkFs (Json (JObj [("town", JStr "Cairns")])) false) =
    ([PrintStarting], mkFs (Json (JObj [("town", JStr "Cairns")])) false,
     Crashed (KeyError "warning_file")).
Proof.
  split; [|split].
  - apply (stored_config_is_not_validated [Some "Victoria"]
             (mkFs (Json (JObj [])) false) (JObj []) eq_refl);
      [discriminate | reflexivity].
  - destruct (stored_config_is_not_validated []
                (mkFs (Json (JObj [("town", JStr EmptyString);
                                   ("warning_file", JNum 7)])) true)
                (JObj [("town", JStr EmptyString); ("warning_file", JNum 7)])
                eq_refl) as (_ & H & _); [discriminate|].
    apply H; reflexivity.
  - destruct (stored_config_is_not_validated []
                (mkFs (Json (JObj [("town", JStr "Cairns")])) false)
                (JObj [("town", JStr "Cairns")]) eq_refl) as (_ & _ & H);
      [discriminate|].
    apply H; [reflexivity|]. right. split; [now exists (JStr "Cairns") | reflexivity].
Defined.

(** The monitoring is entered only with a dictionary that has the two
    keys, and that the configuration file then holds. *)
Lemma monitoring_inv (answers : list (option string)) (disk disk' : fs)
    (out : list output) (c : json) :
  program answers disk = (out, disk', Monitoring c) ->
  truthy c = true /\
  (exists t f, subscript c "town" = Value t /\ subscript c "warning_file" = Value f) /\
  config_json disk' = Json c /\
  (config_json disk = Json c /\ disk' = disk \/
   exists shown, run_first_time_setup answers disk = (shown, disk', Returned c)).
Proof.
  assert (Hl : forall v o, launch v = (o, Monitoring c) ->
             v = c /\ truthy c = true /\
             exists t f, subscript c "town" = Value t /\
                         subscript c "warning_file" = Value f).
  { intros v o. unfold launch. destruct (truthy v) eqn:Ht; [|discriminate].
    destruct (subscript v "town") as [t|] eqn:E1; [|discriminate].
    destruct (subscript v "warning_file") as [f|] eqn:E2; [|discriminate].
    intros [= _ <-]. repeat split; [assumption | now exists t, f]. }
  unfold program, load_config.
  destruct (config_json disk) as [| | |v] eqn:Hf; try discriminate.
  1,2: destruct (run_first_time_setup answers disk) as [[shown d'] [| r | e]] eqn:Hs;
    try discriminate;
    destruct (launch r) as [o en] eqn:L; intros [= _ <- ->];
    destruct (Hl _ _ L) as (-> & Ht & Hk);
    (assert (Hn : c <> JNull) by (intros ->; discriminate));
    destruct (setup_returned_inv _ _ _ _ _ Hs)
      as [(-> & _) | (s & t & f & _ & _ & _ & _ & _ & ->)]; [congruence|];
    repeat split; try assumption; right; now exists shown.
  destruct v.
  - destruct (run_first_time_setup answers disk) as [[shown d'] [| r | e]] eqn:Hs;
      try discriminate.
    destruct (launch r) as [o en] eqn:L. intros [= _ <- ->].
    destruct (Hl _ _ L) as (-> & Ht & Hk).
    assert (Hn : c <> JNull) by (intros ->; discriminate).
    destruct (setup_returned_inv _ _ _ _ _ Hs)
      as [(-> & _) | (s & t & f & _ & _ & _ & _ & _ & ->)]; [congruence|].
    repeat split; try assumption. right. now exists shown.
  - destruct (launch (JBool b)) as [o en] eqn:L. intros [= _ <- ->].
    destruct (Hl _ _ L) as (<- & Ht & Hk). auto 6.
  - destruct (launch (JNum n)) as [o en] eqn:L. intros [= _ <- ->].
    destruct (Hl _ _ L) as (<- & Ht & Hk). auto 6.
  - destruct (launch (JStr s)) as [o en] eqn:L. intros [= _ <- ->].
    destruct (Hl _ _ L) as (<- & Ht & Hk). auto 6.
  - destruct (launch (JArr items)) as [o en] eqn:L. intros [= _ <- ->].
    destruct (Hl _ _ L) as (<- & Ht & Hk). auto 6.
  - destruct (launch (JObj members)) as [o en] eqn:L. intros [= _ <- ->].
    destruct (Hl _ _ L) as (<- & Ht & Hk). auto 6.
Qed.

(** X19. Once a start of the program has reached the monitoring, whether
    with a stored configuration or after a setup, every later start on
    the file it left reaches the monitoring with the same configuration,
    shows no dialog, and leaves the file alone. *)
Theorem later_starts_need_no_setup (answers answers' : list (option string))
    (disk disk' : fs) (out : list output) (c : json) :
  program answers disk = (out, disk', Monitoring c) ->
  exists t f,
    subscript c "town" = Value t /\ subscript c "warning_file" = Value f /\
    program answers' disk' =
    ([PrintStarting; PrintMonitoring t f; PrintHowToStop], disk', Monitoring c).
Proof.
  intros H.
  destruct (monitoring_inv _ _ _ _ _ H) as (Ht & (t & f & H1 & H2) & Hd & _).
  exists t, f. split; [exact H1|]. split; [exact H2|].
  unfold program, load_config. rewrite Hd.
  destruct c; try discriminate; unfold launch; now rewrite Ht, H1, H2.
Qed.

Lemma later_starts_need_no_setup_witness :
  let c := config_data (mkConfig "Tasmania" "Hobart" "IDT21037.xml") in
  exists t f,
    subscript c "town" = Value t /\ subscript c "warning_file" = Value f /\
    program [None] (mkFs (Json c) false) =
    ([PrintStarting; PrintMonitoring t f; PrintHowToStop],
     mkFs (Json c) false, Monitoring c).
Proof.
  apply (later_starts_need_no_setup [Some "Tasmania"; Some "Hobart"] [None]
           (mkFs Absent false) _
           ([PrintNoConfiguration; Dialog ask_state; Dialog ask_town;
             Dialog (setup_complete "Hobart" "Tasmania");
             PrintStarting;
             PrintMonitoring (JStr "Hobart") (JStr "IDT21037.xml");
             PrintHowToStop])).
  reflexivity.
Defined.

End SetupFacts.

(* --------------------------------------------------------------------- *)
(** ** The town's letter case, and an interrupted fetch *)
(* --------------------------------------------------------------------- *)

Section LastFacts.
Import Text ETree Py Fetch Loop Observe Accounting Samples.

Lemma extract_town_case (root : Element) (config config' : Config) :
  lower (town config) = lower (town config') ->
  extract root config = extract root config'.
Proof. intros H. unfold extract. now rewrite H. Qed.

(** X20. The letter case in which the town was typed does not matter:
    two configurations for the same warning file whose towns differ only
    in letter case get the same result, and leave the same world, from
    every fetch. *)
Theorem town_case_does_not_matter (srv : server) (config config' : Config)
    (w : world) :
  warning_file config = warning_file config' ->
  lower (town config) = lower (town config') ->
  fetch_and_parse_warning srv config w = fetch_and_parse_warning srv config' w.
Proof.
  intros Hf Ht.
  unfold fetch_and_parse_warning, try_except, fetch_body,
    FTP, login, cwd, retrbinary, quit, parse.
  py_unfold. rewrite Hf.
  destruct (on_connect srv); simpl; [|reflexivity].
  destruct (on_login srv); simpl; [|reflexivity].
  destruct (on_cwd srv); simpl; [|reflexivity].
  destruct (on_retr srv (warning_file config')) as [f|]; simpl; [|reflexivity].
  destruct (on_quit srv); simpl; [|reflexivity].
  destruct f as [|root]; simpl; [reflexivity|].
  now rewrite (extract_town_case root config config' Ht).
Qed.

Lemma town_case_does_not_matter_witness :
  fetch_and_parse_warning (serving (Document storm)) ipswich initial =
  fetch_and_parse_warning (serving (Document storm))
    (mkConfig "Queensland" "IPSWICH" "IDQ21037.xml") initial.
Proof.
  apply (town_case_does_not_matter (serving (Document storm)) ipswich
           (mkConfig "Queensland" "IPSWICH" "IDQ21037.xml") initial);
    reflexivity.
Defined.

(** X21. A [KeyboardInterrupt] during the fetch ends the loop at once:
    the iteration neither sleeps nor prints nor calls [display_alert],
    the recorded identity is as before, and no later iteration runs. *)
Theorem interrupted_fetch_stops_the_loop (config : Config) (e : env)
    (w w1 : world) :
  fetch_body (srv e) config w = (Raise KeyboardInterrupt, w1) ->
  iteration config e w = (Return Break, w1) /\
  trace w1 = trace w /\
  processed_warning_id w1 = processed_warning_id w /\
  forall rest, iterations config (e :: rest) w = (Return tt, w1).
Proof.
  intros H.
  pose proof (fetch_body_frame (srv e) config w) as Hfr.
  rewrite H in Hfr; simpl in Hfr. destruct Hfr as (Hp & Ht).
  assert (Hi : iteration config e w = (Return Break, w1)).
  { unfold iteration, loop_body, fetch_and_parse_warning, try_except, bind.
    now rewrite H. }
  repeat split; try assumption.
  intros rest. simpl. unfold bind. now rewrite Hi.
Qed.

Lemma interrupted_fetch_stops_the_loop_witness :
  let e := mkEnv (mkServer (Ok tt) (Err KeyboardInterrupt) (Ok tt)
                    (fun _ => Ok (Document storm)) (Ok tt)) Dismissed in
  iterations ipswich [e; mkEnv (serving (Document storm)) Dismissed] notified =
  (Return tt, set_conn Open notified).
Proof.
  intros e.
  destruct (interrupted_fetch_stops_the_loop ipswich e notified
              (set_conn Open notified) eq_refl) as (_ & _ & _ & H).
  apply H.
Defined.

End LastFacts.
